(** * Event proximity and interaction-eligibility engine

    A shallow embedding of the rules of the event-discovery application:
    the post-event interaction window and the attendance, comment, image
    and rating routes (backend/src/routes/interactions.ts), the feed and
    delete routes (backend/src/routes/events.ts), the tables and their
    constraints (backend/src/db/schema.ts), the city table and coordinate
    resolution (utils/geo.ts), the home feed screen (loadLocation and
    fetchEvents), the going toggle of the event screen, and the media URL
    resolver (utils/storage.ts).

    Conventions.
    - A [Date] is its [getTime()] value: an integer number of milliseconds
      ([Z]).  The wall clock read by [new Date()] / [Date.now()] is an
      explicit argument [now].
    - Strings are [string]; the character classes of [trim], [toLowerCase]
      and the regular expression class [\s] are taken on ASCII.
    - A JavaScript [number] that the code only adds, multiplies, divides and
      compares is an exact rational ([Q]); the rating examples of the
      specification are also run on IEEE-754 doubles ([PrimFloat]).
    - A database table is the list of its rows; a constraint of the schema
      (unique index, foreign key with cascade) is part of the insert or
      delete operation on the table.
    - A call that may reject or throw has an explicit [Outcome]. *)

From Stdlib Require Import ZArith QArith Qround String Ascii List Bool Lia.
From Stdlib Require Import Permutation Sorted Floats Uint63.
From stdpp Require Import base option list gmap strings pretty.
Import ListNotations.

Local Open Scope string_scope.
Local Open Scope Z_scope.

(** ** JavaScript helpers *)

Module JS.

(** The result of a call that may throw (or of a promise that may reject). *)
Inductive Outcome (A : Type) : Type :=
| Returns (a : A)
| Throws.
Arguments Returns {A} a.
Arguments Throws {A}.

(** Truthiness of a string: every string but the empty one. *)
Definition truthy (s : string) : bool :=
  match s with
  | EmptyString => false
  | String _ _ => true
  end.

(** Truthiness of [string | null | undefined]. *)
Definition truthy_opt (o : option string) : bool :=
  match o with
  | Some s => truthy s
  | None => false
  end.

(** [\s], on ASCII: tab, line feed, vertical tab, form feed, carriage
    return and space. *)
Definition is_whitespace (c : ascii) : bool :=
  let n := nat_of_ascii c in
  ((9 <=? n) && (n <=? 13))%nat || (n =? 32)%nat.

Fixpoint trimStart (s : string) : string :=
  match s with
  | EmptyString => EmptyString
  | String c r => if is_whitespace c then trimStart r else s
  end.

Fixpoint rev_onto (s acc : string) : string :=
  match s with
  | EmptyString => acc
  | String c r => rev_onto r (String c acc)
  end.

Definition reverse (s : string) : string := rev_onto s EmptyString.

Definition trim (s : string) : string :=
  reverse (trimStart (reverse (trimStart s))).

(** [toLowerCase], on ASCII: A..Z are shifted to a..z. *)
Definition lower_char (c : ascii) : ascii :=
  let n := nat_of_ascii c in
  if ((65 <=? n) && (n <=? 90))%nat then ascii_of_nat (n + 32) else c.

Fixpoint toLowerCase (s : string) : string :=
  match s with
  | EmptyString => EmptyString
  | String c r => String (lower_char c) (toLowerCase r)
  end.

(** [s.replace(/\s+/g, " ")]: every maximal run of whitespace becomes one
    space.  [in_run] says that the previous character was whitespace. *)
Fixpoint collapse_ws (in_run : bool) (s : string) : string :=
  match s with
  | EmptyString => EmptyString
  | String c r =>
      if is_whitespace c
      then (if in_run then collapse_ws true r
            else String " "%char (collapse_ws true r))
      else String c (collapse_ws false r)
  end.

Fixpoint startsWith (p s : string) : bool :=
  match p, s with
  | EmptyString, _ => true
  | String a p', String b s' => Ascii.eqb a b && startsWith p' s'
  | String _ _, EmptyString => false
  end.

(** [s.indexOf(p)]: the first position where [p] occurs, if any. *)
Fixpoint indexOf (p s : string) : option nat :=
  if startsWith p s then Some 0%nat
  else match s with
       | EmptyString => None
       | String _ r => option_map S (indexOf p r)
       end.

Definition includes (p s : string) : bool :=
  match indexOf p s with Some _ => true | None => false end.

Fixpoint slice_from (n : nat) (s : string) : string :=
  match n, s with
  | O, _ => s
  | S k, String _ r => slice_from k r
  | S _, EmptyString => EmptyString
  end.

(** [s.split(sep)[0]] for a one-character separator. *)
Fixpoint before_char (sep : ascii) (s : string) : string :=
  match s with
  | EmptyString => EmptyString
  | String c r => if Ascii.eqb c sep then EmptyString
                  else String c (before_char sep r)
  end.

(** A [number] that may be infinite or NaN (the distance of an event and
    the value of a sort comparator). *)
Inductive number : Type :=
| Num (q : Q)
| PosInfinity
| NegInfinity
| NaN.

Definition sub (a b : number) : number :=
  match a, b with
  | NaN, _ | _, NaN => NaN
  | Num x, Num y => Num (x - y)
  | Num _, PosInfinity => NegInfinity
  | Num _, NegInfinity => PosInfinity
  | PosInfinity, PosInfinity => NaN
  | PosInfinity, _ => PosInfinity
  | NegInfinity, NegInfinity => NaN
  | NegInfinity, _ => NegInfinity
  end.

(** [v > 0]; false for NaN, which [Array.prototype.sort] reads as +0. *)
Definition positive (v : number) : bool :=
  match v with
  | Num q => negb (Qle_bool q 0)
  | PosInfinity => true
  | NegInfinity | NaN => false
  end.

(** [Array.prototype.sort(comparefn)]: a stable sort; [a] stays before a
    later [b] unless [comparefn(a, b) > 0].  Written as an insertion sort,
    each element being put before the first element of the sorted rest that
    must not precede it; for a comparator that is a total preorder every
    stable sort gives the same list ([SortProperties.Array_sort_unique]). *)
Section Sort.
Context {A : Type} (comparefn : A -> A -> number).

Fixpoint sort_insert (a : A) (l : list A) : list A :=
  match l with
  | [] => [a]
  | b :: l' =>
      if positive (comparefn a b) then b :: sort_insert a l'
      else a :: b :: l'
  end.

Fixpoint Array_sort (l : list A) : list A :=
  match l with
  | [] => []
  | a :: l' => sort_insert a (Array_sort l')
  end.
End Sort.

End JS.

Import JS.

(** ** Replies of a route *)

Module Fastify.

(** What a route hands back: [reply.status(code).send({ error })], or the
    returned value (status 200). *)
Inductive Reply (A : Type) : Type :=
| Status (code : nat) (error : string)
| Ok (payload : A).
Arguments Status {A} code error.
Arguments Ok {A} payload.

Definition is_ok {A} (r : Reply A) : bool :=
  match r with Ok _ => true | Status _ _ => false end.

(** An insert outside any [try] that throws reaches the framework's error
    handler. *)
Definition unhandled {A} : Reply A := Status 500 "Internal Server Error".

End Fastify.

Import Fastify.

(** ** Tables of the database (db/schema.ts) *)

Module Schema.

Inductive Role := RoleUser | RoleOrganizer | RoleAdmin.

Inductive EventStatus := Draft | Published | Cancelled.

Inductive PriceType := Free | Paid.

Definition role_eqb (a b : Role) : bool :=
  match a, b with
  | RoleUser, RoleUser | RoleOrganizer, RoleOrganizer
  | RoleAdmin, RoleAdmin => true
  | _, _ => false
  end.

Definition status_eqb (a b : EventStatus) : bool :=
  match a, b with
  | Draft, Draft | Published, Published | Cancelled, Cancelled => true
  | _, _ => false
  end.

(** The tables with the columns that the routes below read or return.  Of
    [profiles], the columns region, city, show_location, the two social
    user names and created_at are read by none of them, nor is created_at
    of [event_going]. *)
Record Profile := {
  profile_id : string;
  profile_username : string;
  profile_role : Role;
  profile_avatarUrl : option string
}.

Record Event := {
  event_id : string;
  event_organizerId : string;
  event_title : string;
  event_description : option string;
  event_lineup : option string;
  event_posterUrl : option string;
  event_region : string;
  event_city : string;
  event_address : string;
  event_lat : Q;
  event_lng : Q;
  event_startsAt : Z;
  event_endsAt : Z;
  event_genre : string;
  event_ageLabel : string;
  event_priceType : PriceType;
  event_price : option Q;
  event_ticketUrl : option string;
  event_status : EventStatus;
  event_createdAt : Z
}.

Record Going := {
  going_id : string;
  going_eventId : string;
  going_userId : string
}.

Record Comment := {
  comment_id : string;
  comment_eventId : string;
  comment_userId : string;
  comment_body : string;
  comment_createdAt : Z
}.

Record Image := {
  image_id : string;
  image_eventId : string;
  image_userId : string;
  image_imageUrl : string;
  image_createdAt : Z
}.

Record Rating := {
  rating_id : string;
  rating_eventId : string;
  rating_userId : string;
  rating_value : Q;
  rating_createdAt : Z
}.

Record DB := {
  profiles : list Profile;
  events : list Event;
  eventGoing : list Going;
  eventComments : list Comment;
  eventImages : list Image;
  eventRatings : list Rating
}.

(** [select().from(profiles).where(eq(profiles.id, uid))], first row. *)
Definition find_profile (db : DB) (uid : string) : option Profile :=
  List.find (fun p => String.eqb (profile_id p) uid) (profiles db).

Definition find_event (db : DB) (id : string) : option Event :=
  List.find (fun e => String.eqb (event_id e) id) (events db).

Definition going_matches (id uid : string) (g : Going) : bool :=
  String.eqb (going_eventId g) id && String.eqb (going_userId g) uid.

Definition find_going (db : DB) (id uid : string) : option Going :=
  List.find (going_matches id uid) (eventGoing db).

Definition rating_matches (id uid : string) (r : Rating) : bool :=
  String.eqb (rating_eventId r) id && String.eqb (rating_userId r) uid.

Definition find_rating_by_id (db : DB) (rid : string) : option Rating :=
  List.find (fun r => String.eqb (rating_id r) rid) (eventRatings db).

(** The role test [userProfile?.role === 'admin']. *)
Definition is_admin (db : DB) (uid : string) : bool :=
  match find_profile db uid with
  | Some p => role_eqb (profile_role p) RoleAdmin
  | None => false
  end.

Definition with_going (db : DB) (l : list Going) : DB :=
  {| profiles := profiles db; events := events db; eventGoing := l;
     eventComments := eventComments db; eventImages := eventImages db;
     eventRatings := eventRatings db |}.

Definition with_comments (db : DB) (l : list Comment) : DB :=
  {| profiles := profiles db; events := events db;
     eventGoing := eventGoing db; eventComments := l;
     eventImages := eventImages db; eventRatings := eventRatings db |}.

Definition with_images (db : DB) (l : list Image) : DB :=
  {| profiles := profiles db; events := events db;
     eventGoing := eventGoing db; eventComments := eventComments db;
     eventImages := l; eventRatings := eventRatings db |}.

Definition with_ratings (db : DB) (l : list Rating) : DB :=
  {| profiles := profiles db; events := events db;
     eventGoing := eventGoing db; eventComments := eventComments db;
     eventImages := eventImages db; eventRatings := l |}.

(** [insert(eventGoing)]: the primary key and the unique index
    [event_going_event_user_unique] make the insert throw on a duplicate. *)
Definition insert_going (db : DB) (g : Going) : Outcome DB :=
  if existsb (fun x => String.eqb (going_id x) (going_id g)
                       || going_matches (going_eventId g) (going_userId g) x)
             (eventGoing db)
  then Throws
  else Returns (with_going db (eventGoing db ++ [g])).

(** [delete(eventGoing).where(and(eq(eventId, id), eq(userId, uid)))]. *)
Definition delete_going (db : DB) (id uid : string) : DB :=
  with_going db
    (List.filter (fun g => negb (going_matches id uid g)) (eventGoing db)).

(** [insert(eventRatings)]: the primary key, the unique index
    [event_ratings_event_user_unique] on (event_id, user_id) and the check
    [rating_range] make the insert throw. *)
Definition insert_rating (db : DB) (r : Rating) : Outcome DB :=
  if existsb (fun x => String.eqb (rating_id x) (rating_id r)
                       || rating_matches (rating_eventId r) (rating_userId r) x)
             (eventRatings db)
     || negb (Qle_bool 1 (rating_value r) && Qle_bool (rating_value r) 5)
  then Throws
  else Returns (with_ratings db (eventRatings db ++ [r])).

Definition insert_comment (db : DB) (c : Comment) : Outcome DB :=
  if existsb (fun x => String.eqb (comment_id x) (comment_id c))
             (eventComments db)
  then Throws
  else Returns (with_comments db (eventComments db ++ [c])).

Definition insert_image (db : DB) (i : Image) : Outcome DB :=
  if existsb (fun x => String.eqb (image_id x) (image_id i)) (eventImages db)
  then Throws
  else Returns (with_images db (eventImages db ++ [i])).

(** [delete(events).where(eq(events.id, id))]: the rows of the four child
    tables reference the event with [onDelete: 'cascade']. *)
Definition delete_event (db : DB) (id : string) : DB :=
  {| profiles := profiles db;
     events := List.filter (fun e => negb (String.eqb (event_id e) id)) (events db);
     eventGoing :=
       List.filter (fun g => negb (String.eqb (going_eventId g) id)) (eventGoing db);
     eventComments :=
       List.filter (fun c => negb (String.eqb (comment_eventId c) id)) (eventComments db);
     eventImages :=
       List.filter (fun i => negb (String.eqb (image_eventId i) id)) (eventImages db);
     eventRatings :=
       List.filter (fun r => negb (String.eqb (rating_eventId r) id)) (eventRatings db) |}.

End Schema.

Import Schema.

(** ** Interaction routes (backend/src/routes/interactions.ts) *)

Module Interactions.

Definition INTERACTION_WINDOW_HOURS : Z := 7 * 24.
Definition MAX_IMAGES_PER_USER : nat := 5.
Definition MAX_COMMENT_LENGTH : nat := 300.

(** The length of the match of [/https?:\/\/[^\s]+/] anchored at the head
    of [s], if it matches there. *)
Fixpoint nonws_run (s : string) : nat :=
  match s with
  | EmptyString => 0%nat
  | String c r => if is_whitespace c then 0%nat else S (nonws_run r)
  end.

Definition url_match_length (s : string) : option nat :=
  let try_scheme (scheme : string) :=
    if startsWith scheme s
    then match nonws_run (slice_from (String.length scheme) s) with
         | O => None
         | S n => Some (String.length scheme + S n)%nat
         end
    else None in
  match try_scheme "https://" with
  | Some n => Some n
  | None => try_scheme "http://"
  end.

(** [body.replace(/https?:\/\/[^\s]+/g, '')]; [skip] counts the characters
    of the current match that are still to be dropped. *)
Fixpoint strip_urls (skip : nat) (s : string) : string :=
  match s with
  | EmptyString => EmptyString
  | String c r =>
      match skip with
      | S k => strip_urls k r
      | O => match url_match_length s with
             | Some n => strip_urls (Nat.pred n) r
             | None => String c (strip_urls 0 r)
             end
      end
  end.

Definition sanitizeComment (body : string) : string :=
  trim (strip_urls 0 body).

Definition isInInteractionWindow (now : Z) (eventEndsAt : Z) : bool :=
  let endTime := eventEndsAt in
  let windowEndTime := endTime + INTERACTION_WINDOW_HOURS * 60 * 60 * 1000 in
  (endTime <=? now) && (now <=? windowEndTime).

(** [Math.round(y)]: the integer nearest to [y], a tie going up. *)
Definition Math_round (y : Q) : Z := Qfloor (y + (1 # 2)).

Definition validateRating (rating : Q) : bool :=
  Qle_bool 1 rating && Qle_bool rating 5
  && Qeq_bool (inject_Z (Math_round (rating * 10)) / 10) rating.



(** *** POST /api/events/:id/going *)
Definition postGoing (db : DB) (fresh : string) (session : option string)
    (id : string) : Reply unit * DB :=
  match session with
  | None => (Status 401 "Unauthorized", db)
  | Some uid =>
      match find_event db id with
      | None => (Status 404 "Event not found", db)
      | Some event =>
          if String.eqb (event_organizerId event) uid
          then (Status 403 "Cannot mark going on own event", db)
          else
            match insert_going db {| going_id := fresh; going_eventId := id;
                                     going_userId := uid |} with
            | Returns db' => (Ok tt, db')
            | Throws => (Ok tt, db)   (* caught: already marked going *)
            end
      end
  end.

(** *** DELETE /api/events/:id/going *)
Definition deleteGoing (db : DB) (session : option string)
    (id : string) : Reply unit * DB :=
  match session with
  | None => (Status 401 "Unauthorized", db)
  | Some uid => (Ok tt, delete_going db id uid)
  end.

(** *** POST /api/events/:id/comments *)
Record CommentReply := {
  cr_id : string;
  cr_body : string;
  cr_createdAt : Z;
  cr_user : option Profile
}.

Definition postComment (db : DB) (now : Z) (fresh : string)
    (session : option string) (id body : string) : Reply CommentReply * DB :=
  match session with
  | None => (Status 401 "Unauthorized", db)
  | Some uid =>
      match find_event db id with
      | None => (Status 404 "Event not found", db)
      | Some event =>
          match find_going db id uid with
          | None => (Status 403 "Must be going to comment", db)
          | Some _ =>
              if negb (isInInteractionWindow now (event_endsAt event))
              then (Status 403 "Can only comment within 7 days after event ends", db)
              else
                let sanitized := sanitizeComment body in
                if (String.length sanitized =? 0)%nat
                then (Status 400 "Comment cannot be empty", db)
                else if (MAX_COMMENT_LENGTH <? String.length sanitized)%nat
                then (Status 400 "Comment must be max 300 characters", db)
                else
                  match insert_comment db
                          {| comment_id := fresh; comment_eventId := id;
                             comment_userId := uid; comment_body := sanitized;
                             comment_createdAt := now |} with
                  | Throws => (unhandled, db)
                  | Returns db' =>
                      (Ok {| cr_id := fresh; cr_body := sanitized;
                             cr_createdAt := now;
                             cr_user := find_profile db' uid |}, db')
                  end
          end
      end
  end.

(** *** POST /api/events/:id/images *)

(** The multipart file of the request: [request.file(...)] gives none or a
    file whose [toBuffer()] throws above 5 MB. *)
Record UploadedFile := {
  file_filename : string;
  file_toBuffer : Outcome string
}.

(** [app.storage]: upload a buffer under a key, then sign the key. *)
Record ObjectStorage := {
  storage_upload : string -> string -> Outcome string;
  storage_getSignedUrl : string -> Outcome string
}.

Record ImageReply := {
  ir_id : string;
  ir_imageUrl : string;
  ir_createdAt : Z
}.

Definition user_image_count (db : DB) (id uid : string) : nat :=
  List.length
    (List.filter (fun i => String.eqb (image_eventId i) id
                           && String.eqb (image_userId i) uid)
                 (eventImages db)).

Definition image_key (id uid : string) (now : Z) (filename : string) : string :=
  "events/" ++ id ++ "/" ++ uid ++ "/" ++ pretty now ++ "-" ++ filename.

Definition postImage (db : DB) (now : Z) (fresh : string)
    (storage : ObjectStorage) (session : option string) (id : string)
    (data : option UploadedFile) : Reply ImageReply * DB :=
  match session with
  | None => (Status 401 "Unauthorized", db)
  | Some uid =>
      match find_event db id with
      | None => (Status 404 "Event not found", db)
      | Some event =>
          match find_going db id uid with
          | None => (Status 403 "Must be going to upload images", db)
          | Some _ =>
              if negb (isInInteractionWindow now (event_endsAt event))
              then (Status 403 "Can only upload images within 7 days after event ends", db)
              else if (MAX_IMAGES_PER_USER <=? user_image_count db id uid)%nat
              then (Status 403 "Max 5 images per user per event", db)
              else
                match data with
                | None => (Status 400 "No file provided", db)
                | Some file =>
                    match file_toBuffer file with
                    | Throws => (Status 413 "File too large (max 5MB)", db)
                    | Returns buffer =>
                        let key := image_key id uid now (file_filename file) in
                        let failed := (Status 500 "Failed to upload image", db) in
                        match storage_upload storage key buffer with
                        | Throws => failed
                        | Returns uploadedKey =>
                            match storage_getSignedUrl storage uploadedKey with
                            | Throws => failed
                            | Returns url =>
                                match insert_image db
                                        {| image_id := fresh; image_eventId := id;
                                           image_userId := uid; image_imageUrl := url;
                                           image_createdAt := now |} with
                                | Throws => failed
                                | Returns db' =>
                                    (Ok {| ir_id := fresh; ir_imageUrl := url;
                                           ir_createdAt := now |}, db')
                                end
                            end
                        end
                    end
                end
          end
      end
  end.

(** *** POST /api/events/:id/ratings *)
Record RatingReply := {
  rr_id : string;
  rr_rating : Q;
  rr_createdAt : Z
}.

Definition postRating (db : DB) (now : Z) (fresh : string)
    (session : option string) (id : string) (rating : Q)
    : Reply RatingReply * DB :=
  match session with
  | None => (Status 401 "Unauthorized", db)
  | Some uid =>
      if negb (validateRating rating)
      then (Status 400 "Rating must be between 1.0 and 5.0 with 1 decimal", db)
      else
        match find_event db id with
        | None => (Status 404 "Event not found", db)
        | Some event =>
            match find_going db id uid with
            | None => (Status 403 "Must be going to rate", db)
            | Some _ =>
                if negb (isInInteractionWindow now (event_endsAt event))
                then (Status 403 "Can only rate within 7 days after event ends", db)
                else
                  match insert_rating db
                          {| rating_id := fresh; rating_eventId := id;
                             rating_userId := uid; rating_value := rating;
                             rating_createdAt := now |} with
                  | Returns db' =>
                      (Ok {| rr_id := fresh; rr_rating := rating;
                             rr_createdAt := now |}, db')
                  | Throws => (Status 409 "Already rated this event", db)
                  end
            end
        end
  end.

(** *** PUT /api/ratings/:id *)
Definition set_rating (rid : string) (v : Q) (r : Rating) : Rating :=
  if String.eqb (rating_id r) rid
  then {| rating_id := rating_id r; rating_eventId := rating_eventId r;
          rating_userId := rating_userId r; rating_value := v;
          rating_createdAt := rating_createdAt r |}
  else r.

Definition putRating (db : DB) (session : option string) (rid : string)
    (rating : Q) : Reply RatingReply * DB :=
  match session with
  | None => (Status 401 "Unauthorized", db)
  | Some uid =>
      if negb (validateRating rating)
      then (Status 400 "Rating must be between 1.0 and 5.0 with 1 decimal", db)
      else
        match find_rating_by_id db rid with
        | None => (Status 404 "Rating not found", db)
        | Some eventRating =>
            if negb (String.eqb (rating_userId eventRating) uid)
               && negb (is_admin db uid)
            then (Status 403 "Unauthorized", db)
            else
              (Ok {| rr_id := rating_id eventRating; rr_rating := rating;
                     rr_createdAt := rating_createdAt eventRating |},
               with_ratings db (List.map (set_rating rid rating) (eventRatings db)))
        end
  end.

(** *** DELETE /api/ratings/:id/admin *)
Definition deleteRatingAdmin (db : DB) (session : option string)
    (rid : string) : Reply unit * DB :=
  match session with
  | None => (Status 401 "Unauthorized", db)
  | Some uid =>
      if negb (is_admin db uid) then (Status 403 "Admin only", db)
      else
        match find_rating_by_id db rid with
        | None => (Status 404 "Rating not found", db)
        | Some _ =>
            (Ok tt,
             with_ratings db
               (List.filter (fun r => negb (String.eqb (rating_id r) rid))
                            (eventRatings db)))
        end
  end.

End Interactions.

(** ** Event routes (backend/src/routes/events.ts) *)

Module Events.

(** The query string of GET /api/events. *)
Record FeedQuery := {
  q_lat : option string;
  q_lng : option string;
  q_region : option string;
  q_city : option string;
  q_genre : option string;
  q_search : option string
}.

Record Organizer := {
  org_id : string;
  org_username : option string;
  org_role : option Role
}.

Record FeedEvent := {
  fe_event : Event;
  fe_distance : Q;
  fe_organizer : Organizer;
  fe_goingCount : nat;
  fe_avgRating : option Q;
  fe_isToday : bool;
  fe_isCancelled : bool
}.

(** One row of events LEFT JOIN event_going LEFT JOIN event_ratings for a
    given event: the going row and the rating row, [None] where the left
    join found no partner. *)
Definition JoinedRow : Type := option Going * option Rating.

Definition left_join {A B} (rows : list A) (partners : list B)
    : list (A * option B) :=
  flat_map (fun a => match partners with
                     | [] => [(a, None)]
                     | _ => List.map (fun b => (a, Some b)) partners
                     end) rows.

Definition joined_rows (db : DB) (e : Event) : list JoinedRow :=
  let going :=
    List.filter (fun g => String.eqb (event_id e) (going_eventId g)) (eventGoing db) in
  let ratings :=
    List.filter (fun r => String.eqb (event_id e) (rating_eventId r)) (eventRatings db) in
  List.map (fun '(_, g, r) => (g, r)) (left_join (left_join [tt] going) ratings).

(** [count(column)]: the rows where the column is not NULL. *)
Definition sql_count {A} (column : list (option A)) : nat :=
  List.length (omap id column).

Definition Qsum (l : list Q) : Q := fold_right Qplus 0%Q l.

(** [avg(column)]: NULL over no non-NULL value, their mean otherwise. *)
Definition sql_avg (column : list (option Q)) : option Q :=
  match omap id column with
  | [] => None
  | v :: vs => Some (Qsum (v :: vs) / inject_Z (Z.of_nat (List.length (v :: vs))))%Q
  end.

Section Feed.

(** Provided by the platform: [column ILIKE pattern] of the database,
    [parseFloat] ([None] for NaN), the haversine [calculateDistance]
    (floating point trigonometry, not modelled) and [toDateString]. *)
Variable ilike : string -> string -> bool.
Variable parseFloat : string -> option Q.
Variable calculateDistance : Q -> Q -> Q -> Q -> Q.
Variable toDateString : Z -> string.

Definition ilike_null (column : option string) (pattern : string) : bool :=
  match column with
  | Some s => ilike s pattern
  | None => false
  end.

Definition whereConditions (q : FeedQuery) : list (Event -> bool) :=
  [fun e => status_eqb (event_status e) Published]
  ++ match q_genre q with
     | Some genre =>
         if truthy genre then [fun e => String.eqb (event_genre e) genre] else []
     | None => []
     end
  ++ match q_region q with
     | Some region =>
         if truthy region then [fun e => String.eqb (event_region e) region] else []
     | None => []
     end
  ++ match q_city q with
     | Some city =>
         if truthy city then [fun e => String.eqb (event_city e) city] else []
     | None => []
     end
  ++ match q_search q with
     | Some search =>
         if truthy search
         then [fun e => ilike (event_title e) ("%" ++ search ++ "%")
                        || ilike_null (event_description e) ("%" ++ search ++ "%")]
         else []
     | None => []
     end.

(** [and(...conditions)]. *)
Definition sql_and (conditions : list (Event -> bool)) (e : Event) : bool :=
  forallb (fun c => c e) conditions.

(** [orderBy(desc(events.startsAt))]. *)
Definition desc_startsAt (a b : Event) : number :=
  Num (inject_Z (event_startsAt b) - inject_Z (event_startsAt a)).

(** The grouped row of one event. *)
Definition enrich (db : DB) (now : Z) (userLat userLng : Q) (e : Event)
    : FeedEvent :=
  let rows := joined_rows db e in
  let organizer := find_profile db (event_organizerId e) in
  {| fe_event := e;
     fe_distance := calculateDistance userLat userLng (event_lat e) (event_lng e);
     fe_organizer :=
       {| org_id := event_organizerId e;
          org_username := option_map profile_username organizer;
          org_role := option_map profile_role organizer |};
     fe_goingCount := sql_count (List.map fst rows);
     fe_avgRating :=
       sql_avg (List.map (fun row => option_map rating_value (snd row)) rows);
     fe_isToday := String.eqb (toDateString (event_startsAt e)) (toDateString now);
     fe_isCancelled := status_eqb (event_status e) Cancelled |}.

(** *** GET /api/events *)
Definition getEvents (db : DB) (now : Z) (q : FeedQuery)
    : Reply (list FeedEvent) :=
  match q_lat q, q_lng q with
  | Some lat, Some lng =>
      if negb (truthy lat) || negb (truthy lng)
      then Status 400 "lat and lng are required"
      else
        match parseFloat lat, parseFloat lng with
        | Some userLat, Some userLng =>
            let events :=
              Array_sort desc_startsAt
                (List.filter (sql_and (whereConditions q)) (events db)) in
            let enrichedEvents := List.map (enrich db now userLat userLng) events in
            Ok (Array_sort
                  (fun a b => sub (Num (fe_distance a)) (Num (fe_distance b)))
                  enrichedEvents)
        | _, _ => Status 400 "Invalid lat or lng"
        end
  | _, _ => Status 400 "lat and lng are required"
  end.

End Feed.

(** *** DELETE /api/events/:id
    [endsAt] is a NOT NULL timestamp, so [endsAt.getTime()] is finite. *)
Definition deleteEvent (db : DB) (now : Z) (session : option string)
    (id : string) : Reply unit * DB :=
  match session with
  | None => (Status 401 "Unauthorized", db)
  | Some uid =>
      let isAdmin := is_admin db uid in
      match find_event db id with
      | None => (Status 404 "Event not found", db)
      | Some event =>
          if negb isAdmin && negb (String.eqb (event_organizerId event) uid)
          then (Status 403 "Unauthorized", db)
          else if negb isAdmin && (event_endsAt event <? now)
          then (Status 403 "Cannot delete ended events", db)
          else (Ok tt, delete_event db id)
      end
  end.

End Events.

(** ** Coordinates of cities and events (utils/geo.ts) *)

Module Geo.

Record LatLng := { lat : Q; lng : Q }.

(** The city table, read as the finite map of the entries it lists. *)
Definition CITY_FALLBACK_COORDS : gmap string LatLng :=
  list_to_map
    [ ("ljubljana", {| lat := 460569 # 10000; lng := 145058 # 10000 |});
      ("maribor", {| lat := 465547 # 10000; lng := 156459 # 10000 |});
      ("celje", {| lat := 462397 # 10000; lng := 152677 # 10000 |});
      ("kranj", {| lat := 462389 # 10000; lng := 143555 # 10000 |});
      ("koper", {| lat := 455481 # 10000; lng := 137301 # 10000 |});
      ("novo mesto", {| lat := 458011 # 10000; lng := 151691 # 10000 |});
      ("ptuj", {| lat := 464203 # 10000; lng := 158697 # 10000 |});
      ("murska sobota", {| lat := 466611 # 10000; lng := 161664 # 10000 |});
      ("slovenia", {| lat := 461512 # 10000; lng := 149955 # 10000 |}) ].

Definition normalizeCityKey (city : option string) : string :=
  collapse_ws false (toLowerCase (trim (default "" city))).

Definition coordsForCity (city : option string) : option LatLng :=
  let key := normalizeCityKey city in
  if truthy key then CITY_FALLBACK_COORDS !! key else None.

(** A field of type [unknown]: a number, a string, or anything else. *)
Inductive value : Type :=
| VNumber (n : number)
| VString (s : string)
| VOther.

Definition isFinite (n : number) : bool :=
  match n with Num _ => true | _ => false end.

Section WithParseFloat.

Variable parseFloat : string -> number.

Definition toFiniteNumber (v : value) : number :=
  match v with
  | VNumber n => if isFinite n then n else NaN
  | VString s => let parsed := parseFloat s in
                 if isFinite parsed then parsed else NaN
  | VOther => NaN
  end.

Definition resolveEventCoords (city : option string) (event_lat event_lng : value)
    : option LatLng :=
  match toFiniteNumber event_lat, toFiniteNumber event_lng with
  | Num la, Num ln => Some {| lat := la; lng := ln |}
  | _, _ => coordsForCity city
  end.

End WithParseFloat.

End Geo.

Import Geo.

(** ** Stateful code that may throw *)

Module Eff.

Section WithState.

Context {S : Type}.

(** A computation over a state [S]; what it wrote before throwing stays
    written. *)
Definition M (A : Type) : Type := S -> Outcome A * S.

Definition ret {A} (a : A) : M A := fun s => (Returns a, s).

Definition bind {A B} (m : M A) (f : A -> M B) : M B :=
  fun s => match m s with
           | (Returns a, s') => f a s'
           | (Throws, s') => (Throws, s')
           end.

Definition throw {A} : M A := fun s => (Throws, s).

(** [try { m } catch { handler }]. *)
Definition try_catch {A} (m handler : M A) : M A :=
  fun s => match m s with
           | (Returns a, s') => (Returns a, s')
           | (Throws, s') => handler s'
           end.

Definition get : M S := fun s => (Returns s, s).

Definition modify (f : S -> S) : M unit := fun s => (Returns tt, f s).

(** Await a call whose outcome the environment fixes. *)
Definition await {A} (o : Outcome A) : M A := fun s => (o, s).

End WithState.

Declare Scope eff_scope.
Delimit Scope eff_scope with eff.
Notation "x <- m ;; k" := (bind m (fun x => k))
  (at level 100, m at next level, right associativity) : eff_scope.
Notation "m ;;; k" := (bind m (fun _ => k))
  (at level 100, right associativity) : eff_scope.

End Eff.

(** ** Media URL resolver (utils/storage.ts) *)

Module Storage.

Import Eff.

Definition DEFAULT_EXPIRES_IN : Z := 60 * 60.

Record StorageUrlCacheEntry := {
  url : string;
  expiresAtMs : Z
}.

Definition cacheKey (bucket path : string) (exp : Z) : string :=
  bucket ++ "|" ++ pretty exp ++ "|" ++ path.

(** [value.replace(/^\/+/, "")]. *)
Fixpoint strip_leading_slashes (s : string) : string :=
  match s with
  | String "/"%char r => strip_leading_slashes r
  | _ => s
  end.

(** [value.slice(index + marker.length).split("?")[0]] when [marker]
    occurs in [value]. *)
Definition path_after (marker value : string) : option string :=
  match indexOf marker value with
  | Some index =>
      Some (before_char "?"%char (slice_from (index + String.length marker) value))
  | None => None
  end.

Definition tryExtractBucketPath (bucket value : string) : option string :=
  if negb (startsWith "http" value)
  then Some (strip_leading_slashes value)
  else
    match path_after ("/storage/v1/object/sign/" ++ bucket ++ "/") value with
    | Some p => Some p
    | None =>
        match path_after ("/storage/v1/object/public/" ++ bucket ++ "/") value with
        | Some p => Some p
        | None => path_after ("/storage/v1/object/" ++ bucket ++ "/") value
        end
    end.

Definition extractStoragePath (bucket : string) (value : option string)
    : option string :=
  match value with
  | Some v => if truthy v then tryExtractBucketPath bucket v else None
  | None => None
  end.

(** What [createSignedUrl] resolves to: [{ data, error }]. *)
Record SignedResponse := {
  sr_error : bool;
  sr_signedUrl : option string     (* [data?.signedUrl] *)
}.

(** The object-storage client: each call may throw. *)
Record Supabase := {
  createSignedUrl : string -> string -> Z -> Outcome SignedResponse;
  getPublicUrl : string -> string -> Outcome (option string)   (* [data?.publicUrl] *)
}.

(** The calls made to the client, with what they gave. *)
Inductive Call : Type :=
| CallCreateSignedUrl (bucket path : string) (exp : Z) (result : Outcome SignedResponse)
| CallGetPublicUrl (bucket path : string) (result : Outcome (option string)).

(** The module-level cache and the log of calls. *)
Record State := {
  storageUrlCache : gmap string StorageUrlCacheEntry;
  calls : list Call
}.

Definition cache_set (key : string) (entry : StorageUrlCacheEntry) : M unit :=
  modify (fun s => {| storageUrlCache := <[key := entry]> (storageUrlCache s);
                      calls := calls s |}).

Definition call_createSignedUrl (sb : Supabase) (bucket path : string) (exp : Z)
    : M SignedResponse :=
  let result := createSignedUrl sb bucket path exp in
  bind (modify (fun s => {| storageUrlCache := storageUrlCache s;
                            calls := calls s ++ [CallCreateSignedUrl bucket path exp result] |}))
       (fun _ => await result).

Definition call_getPublicUrl (sb : Supabase) (bucket path : string)
    : M (option string) :=
  let result := getPublicUrl sb bucket path in
  bind (modify (fun s => {| storageUrlCache := storageUrlCache s;
                            calls := calls s ++ [CallGetPublicUrl bucket path result] |}))
       (fun _ => await result).

Local Open Scope eff_scope.

(** A cached URL that is still valid 30 seconds from [now]. *)
Definition lookup_cached (now : Z) (key : string) : M (option string) :=
  s <- get;;
  ret match storageUrlCache s !! key with
      | Some cached =>
          if now + 30000 <? expiresAtMs cached then Some (url cached) else None
      | None => None
      end.

(** The first [try] block: a signed URL, or nothing. *)
Definition try_signed (sb : Supabase) (later : Z) (bucket path : string) (exp : Z)
    : M (option string) :=
  try_catch
    (r <- call_createSignedUrl sb bucket path exp;;
     match (if sr_error r then None else sr_signedUrl r) with
     | Some signedUrl =>
         if truthy signedUrl
         then (cache_set (cacheKey bucket path exp)
                 {| url := signedUrl; expiresAtMs := later + exp * 1000 |};;;
               ret (Some signedUrl))
         else ret None
     | None => ret None
     end)
    (ret None).

(** The second [try] block: the public URL, or nothing. *)
Definition try_public (sb : Supabase) (later : Z) (bucket path : string) (exp : Z)
    : M (option string) :=
  try_catch
    (r <- call_getPublicUrl sb bucket path;;
     match r with
     | Some publicUrl =>
         if truthy publicUrl
         then (cache_set (cacheKey bucket path exp)
                 {| url := publicUrl; expiresAtMs := later + exp * 1000 |};;;
               ret (Some publicUrl))
         else ret None
     | None => ret None
     end)
    (ret None).

(** [resolveStorageUrl({ bucket, value, expiresIn })]; [now] is the clock
    at the cache lookup and [later] the clock when an entry is stored. *)
Definition resolveStorageUrl (sb : Supabase) (now later : Z)
    (bucket : string) (value : option string) (expiresIn : option Z)
    : M (option string) :=
  match value with
  | None => ret None
  | Some v =>
      if negb (truthy v) then ret None
      else if startsWith "http" v
              && includes ("/storage/v1/object/sign/" ++ bucket ++ "/") v
      then ret (Some v)
      else
        let path := tryExtractBucketPath bucket v in
        let exp := default DEFAULT_EXPIRES_IN expiresIn in
        match path with
        | Some path =>
            if negb (truthy path) then ret (Some v)
            else
              hit <- lookup_cached now (cacheKey bucket path exp);;
              match hit with
              | Some cachedUrl => ret (Some cachedUrl)
              | None =>
                  signed <- try_signed sb later bucket path exp;;
                  match signed with
                  | Some signedUrl => ret (Some signedUrl)
                  | None =>
                      public <- try_public sb later bucket path exp;;
                      match public with
                      | Some publicUrl => ret (Some publicUrl)
                      | None => ret (Some v)
                      end
                  end
              end
        | None => ret (Some v)
        end
  end.

End Storage.

(** ** Home feed screen (loadLocation and fetchEvents) *)

Module Home.

Import Eff.
Local Open Scope eff_scope.

Definition LOCATION_STORAGE_KEY : string := "eventfinder_user_location".
Definition SELECTED_CITY_KEY : string := "eventfinder_selected_city".

(** The refs and state of the screen that [loadLocation] touches, and the
    key-value store of the device. *)
Record State := {
  locationLoadedRef : bool;
  location : option LatLng;
  asyncStorage : gmap string string
}.

(** What the device answers: whether the reads and the writes of the
    key-value store reject, the permission prompt, the position read. *)
Record Device := {
  getItem_rejects : bool;
  setItem_rejects : bool;
  requestForegroundPermissionsAsync : Outcome string;
  getCurrentPositionAsync : Outcome LatLng
}.

Definition setLocation (coords : option LatLng) : M unit :=
  modify (fun s => {| locationLoadedRef := locationLoadedRef s;
                      location := coords;
                      asyncStorage := asyncStorage s |}).

Definition set_locationLoadedRef (b : bool) : M unit :=
  modify (fun s => {| locationLoadedRef := b;
                      location := location s;
                      asyncStorage := asyncStorage s |}).

Definition AsyncStorage_getItem (dev : Device) (key : string) : M (option string) :=
  if getItem_rejects dev then throw
  else (s <- get;; ret (asyncStorage s !! key)).

Definition AsyncStorage_setItem (dev : Device) (key item : string) : M unit :=
  if setItem_rejects dev then throw
  else modify (fun s => {| locationLoadedRef := locationLoadedRef s;
                           location := location s;
                           asyncStorage := <[key := item]> (asyncStorage s) |}).

Section WithJSON.

(** [JSON.stringify] of a coordinate, and [JSON.parse] followed by the
    destructuring [{ lat, lng }]: it throws on a string that is not
    JSON.  Every write of the location key stores the JSON of a
    coordinate, so a parsed item is read as a coordinate. *)
Variable JSON_stringify : LatLng -> string.
Variable JSON_parse : string -> Outcome LatLng.

(** [setLocation(coords); await AsyncStorage.setItem(KEY, JSON.stringify(coords))]. *)
Definition use_and_persist (dev : Device) (coords : option LatLng) : M unit :=
  setLocation coords;;;
  match coords with
  | Some c => AsyncStorage_setItem dev LOCATION_STORAGE_KEY (JSON_stringify c)
  | None => throw
  end.

Definition loadLocation (dev : Device) : M unit :=
  s <- get;;
  if locationLoadedRef s then ret tt
  else
    try_catch
      (set_locationLoadedRef true;;;
       storedLocation <- AsyncStorage_getItem dev LOCATION_STORAGE_KEY;;
       if truthy_opt storedLocation
       then (parsed <- await (JSON_parse (default "" storedLocation));;
             setLocation (Some parsed))
       else
         (status <- await (requestForegroundPermissionsAsync dev);;
          if String.eqb status "granted"
          then (loc <- await (getCurrentPositionAsync dev);;
                use_and_persist dev (Some loc))
          else
            (selectedCity <- AsyncStorage_getItem dev SELECTED_CITY_KEY;;
             let selectedKey := normalizeCityKey selectedCity in
             match (if truthy selectedKey
                    then CITY_FALLBACK_COORDS !! selectedKey else None) with
             | Some coords => use_and_persist dev (Some coords)
             | None => use_and_persist dev (CITY_FALLBACK_COORDS !! "slovenia")
             end)))
      (setLocation (CITY_FALLBACK_COORDS !! "slovenia")).

End WithJSON.

(** A row of the [events] table as the screen reads it. *)
Record Event := {
  id : string;
  title : string;
  description : string;
  poster_url : option string;
  region : string;
  city : option string;
  address : string;
  ev_lat : value;
  ev_lng : value;
  starts_at : Z;
  ends_at : Z;
  genre : string;
  status : string;
  organizer_id : string;
  distance : option Q
}.

(** The route parameter and the filter state of the screen. *)
Record Filters := {
  organizerId : option string;
  selectedRegion : string;
  selectedGenre : string;
  searchQuery : string
}.

(** The [error] of a query: aborted, or anything else. *)
Inductive QueryError := ErrAborted | ErrOther.

Section Feed.

Variable ilike : string -> string -> bool.
Variable parseFloat : string -> number.
Variable calculateDistance : Q -> Q -> Q -> Q -> Q.
(** [resolveStorageUrl({ bucket: "event-posters", value })]. *)
Variable resolvePoster : option string -> option string.

Definition organizerFilterId (f : Filters) : option string :=
  match organizerId f with
  | Some o => if truthy o then Some o else None
  | None => None
  end.

Definition ascending_starts_at (a b : Event) : number :=
  Num (inject_Z (starts_at a) - inject_Z (starts_at b)).

Definition descending_starts_at (a b : Event) : number :=
  Num (inject_Z (starts_at b) - inject_Z (starts_at a)).

(** The rows the query selects: the filters chained on the builder are
    conjoined, the order applies to the selected rows. *)
Definition query (now : Z) (f : Filters) (table : list Event) : list Event :=
  let published := List.filter (fun e => String.eqb (status e) "published") table in
  match organizerFilterId f with
  | Some o =>
      Array_sort descending_starts_at
        (List.filter (fun e => String.eqb (organizer_id e) o) published)
  | None =>
      let upcoming := List.filter (fun e => now <=? ends_at e) published in
      let byRegion :=
        if truthy (selectedRegion f)
        then List.filter (fun e => String.eqb (region e) (selectedRegion f)) upcoming
        else upcoming in
      let byGenre :=
        if truthy (selectedGenre f)
        then List.filter (fun e => String.eqb (genre e) (selectedGenre f)) byRegion
        else byRegion in
      let bySearch :=
        if truthy (searchQuery f)
        then List.filter (fun e => ilike (title e) ("%" ++ searchQuery f ++ "%")) byGenre
        else byGenre in
      Array_sort ascending_starts_at bySearch
  end.

Definition with_coords (e : Event) (coords : option LatLng) (d : option Q) : Event :=
  {| id := id e; title := title e; description := description e;
     poster_url := poster_url e; region := region e; city := city e;
     address := address e;
     ev_lat := match coords with Some c => VNumber (Num (lat c)) | None => ev_lat e end;
     ev_lng := match coords with Some c => VNumber (Num (lng c)) | None => ev_lng e end;
     starts_at := starts_at e; ends_at := ends_at e; genre := genre e;
     status := status e; organizer_id := organizer_id e; distance := d |}.

(** The callback of [eventsWithDistance.map]. *)
Definition withDistance (location : LatLng) (event : Event) : Event :=
  match resolveEventCoords parseFloat (city event) (ev_lat event) (ev_lng event) with
  | None => with_coords event None None
  | Some coords =>
      with_coords event (Some coords)
        (Some (calculateDistance (lat location) (lng location)
                                 (lat coords) (lng coords)))
  end.

(** [a.distance ?? Number.POSITIVE_INFINITY]. *)
Definition distance_or_infinity (e : Event) : number :=
  match distance e with
  | Some d => Num d
  | None => PosInfinity
  end.

Definition compareDistance (a b : Event) : number :=
  sub (distance_or_infinity a) (distance_or_infinity b).

Definition rankEvents (location : LatLng) (data : list Event) : list Event :=
  Array_sort compareDistance (List.map (withDistance location) data).

Definition withPoster (e : Event) : Event :=
  {| id := id e; title := title e; description := description e;
     poster_url := resolvePoster (poster_url e); region := region e;
     city := city e; address := address e; ev_lat := ev_lat e;
     ev_lng := ev_lng e; starts_at := starts_at e; ends_at := ends_at e;
     genre := genre e; status := status e; organizer_id := organizer_id e;
     distance := distance e |}.

(** [fetchEvents]: the list handed to [setEvents], or [None] when the
    call leaves the list of the screen as it is. *)
Definition fetchEvents (location : option LatLng) (isFetching : bool)
    (now : Z) (f : Filters) (error : option QueryError) (table : list Event)
    : option (list Event) :=
  match location with
  | None => None
  | Some location =>
      if isFetching then None
      else
        match error with
        | Some ErrAborted => None
        | Some ErrOther => Some []
        | None =>
            let data := query now f table in
            let eventsWithDistance := rankEvents location data in
            Some (List.map withPoster eventsWithDistance)
        end
  end.

End Feed.

End Home.

(** ** Event screen: the going toggle (frontend/app/event/[id].tsx) *)

Module EventDetail.

Inductive Toast :=
| ToastError (message : string)
| ToastSuccess (message : string).

Inductive ToggleResult :=
| LoginModal
| NoEvent
| Toasted (t : Toast).

(** What the toggle leaves: the outcome shown, the [isGoing] and
    [goingCount] state and the [event_going] table. *)
Record Toggle := {
  shown : ToggleResult;
  isGoing' : bool;
  goingCount' : Z;
  event_going' : list Going
}.

(** [handleGoingToggle]; [failure] is the error of the table call, if it
    failed, and [hasPermission] the answer to the notification prompt.
    Reminders do not touch the table. *)
Definition handleGoingToggle (now : Z) (fresh : string) (hasPermission : bool)
    (user : option string) (event : option Home.Event) (isGoing : bool)
    (goingCount : Z) (failure : option string) (event_going : list Going)
    : Toggle :=
  let unchanged r := {| shown := r; isGoing' := isGoing;
                        goingCount' := goingCount;
                        event_going' := event_going |} in
  match user with
  | None => unchanged LoginModal
  | Some uid =>
      match event with
      | None => unchanged NoEvent
      | Some ev =>
          let eventStart := Home.starts_at ev in
          if isGoing && (eventStart <=? now)
          then unchanged (Toasted (ToastError
                 "Ne morete odstraniti udeležbe, dogodek se je že začel"))
          else
            match failure with
            | Some message =>
                unchanged (Toasted (ToastError
                  (if truthy message then message
                   else "Posodobitev udeležbe ni uspela")))
            | None =>
                if isGoing
                then {| shown := Toasted (ToastSuccess "Odstranjeno iz vaših dogodkov");
                        isGoing' := false;
                        goingCount' := goingCount - 1;
                        event_going' :=
                          List.filter (fun g => negb (going_matches (Home.id ev) uid g))
                                      event_going |}
                else {| shown := Toasted (ToastSuccess
                          (if hasPermission
                           then "Dodano v vaše dogodke. Prejeli boste opomnik 1 dan in 3 ure pred dogodkom."
                           else "Dodano v vaše dogodke."));
                        isGoing' := true;
                        goingCount' := goingCount + 1;
                        event_going' :=
                          event_going ++ [{| going_id := fresh;
                                             going_eventId := Home.id ev;
                                             going_userId := uid |}] |}
            end
      end
  end.

End EventDetail.

(** * Properties *)

(** Case analysis on every scrutinee of a route: in a hypothesis that says
    what the route returned, or in the goal. *)
Ltac split_cases_in H :=
  repeat (match type of H with
          | context [match ?x with _ => _ end] => destruct x eqn:?
          end; try congruence).

Ltac split_cases :=
  repeat (match goal with
          | |- context [match ?x with _ => _ end] => destruct x
          end; try reflexivity).

(** ** The scenario of the specification

    An event that starts 2026-03-01T22:00Z and ends 2026-03-02T04:00Z, its
    organizer, and one user marked going. *)

Module Scenario.

Definition starts : Z := 1772402400000.   (* 2026-03-01T22:00Z *)
Definition ends : Z := 1772424000000.     (* 2026-03-02T04:00Z *)
Definition six_hours_after : Z := 1772445600000.   (* 2026-03-02T10:00Z *)
Definition week_and_hour_after : Z := 1773032400000.   (* 2026-03-09T05:00Z *)

Definition party : Event :=
  {| event_id := "e1"; event_organizerId := "org";
     event_title := "Night"; event_description := None;
     event_lineup := None; event_posterUrl := None;
     event_region := "Osrednjeslovenska"; event_city := "Ljubljana";
     event_address := "Trg 1";
     event_lat := 460569 # 10000; event_lng := 145058 # 10000;
     event_startsAt := starts; event_endsAt := ends;
     event_genre := "techno"; event_ageLabel := "18+";
     event_priceType := Free; event_price := None; event_ticketUrl := None;
     event_status := Published; event_createdAt := 0 |}.

Definition db : DB :=
  {| profiles :=
       [ {| profile_id := "org"; profile_username := "club";
            profile_role := RoleOrganizer; profile_avatarUrl := None |};
         {| profile_id := "u1"; profile_username := "ana";
            profile_role := RoleUser; profile_avatarUrl := None |};
         {| profile_id := "root"; profile_username := "admin";
            profile_role := RoleAdmin; profile_avatarUrl := None |} ];
     events := [party];
     eventGoing := [ {| going_id := "g1"; going_eventId := "e1";
                        going_userId := "u1" |} ];
     eventComments := [];
     eventImages := [];
     eventRatings := [] |}.

Definition photo : Interactions.UploadedFile :=
  {| Interactions.file_filename := "a.jpg";
     Interactions.file_toBuffer := Returns "bytes" |}.

Definition bucket : Interactions.ObjectStorage :=
  {| Interactions.storage_upload := fun key _ => Returns key;
     Interactions.storage_getSignedUrl := fun key => Returns ("https://cdn/" ++ key) |}.

End Scenario.

(** ** The interaction window *)

Module WindowProperties.

Import Interactions.

Lemma window_hours : INTERACTION_WINDOW_HOURS * 60 * 60 * 1000 = 604800000.
Proof. reflexivity. Qed.

(** The window is the closed interval from the end of the event to 168
    hours later. *)
Lemma isInInteractionWindow_spec (now ends : Z) :
  isInInteractionWindow now ends = true <-> ends <= now <= ends + 604800000.
Proof.
  unfold isInInteractionWindow. rewrite window_hours.
  rewrite andb_true_iff, !Z.leb_le. reflexivity.
Qed.

Lemma isInInteractionWindow_closed (now ends : Z) :
  isInInteractionWindow now ends = false <-> now < ends \/ ends + 604800000 < now.
Proof.
  rewrite <- not_true_iff_false, isInInteractionWindow_spec. lia.
Qed.

(** The window of the event [id] at [now]; closed when there is no such
    event. *)
Definition window_open (db : DB) (now : Z) (id : string) : bool :=
  match find_event db id with
  | Some event => isInInteractionWindow now (event_endsAt event)
  | None => false
  end.

Definition marked_going (db : DB) (session : option string) (id : string) : bool :=
  match session with
  | Some uid => match find_going db id uid with Some _ => true | None => false end
  | None => false
  end.

(** A route that answers with an error leaves the tables as they were. *)
Lemma postComment_error_unchanged db now fresh session id body code msg db' :
  postComment db now fresh session id body = (Status code msg, db') -> db' = db.
Proof.
  unfold postComment, unhandled. intros H.
  split_cases_in H.
Qed.

Lemma postRating_error_unchanged db now fresh session id rating code msg db' :
  postRating db now fresh session id rating = (Status code msg, db') -> db' = db.
Proof.
  unfold postRating. intros H.
  split_cases_in H.
Qed.

Lemma postImage_error_unchanged db now fresh storage session id data code msg db' :
  postImage db now fresh storage session id data = (Status code msg, db') -> db' = db.
Proof.
  unfold postImage. intros H.
  split_cases_in H.
Qed.

(** An accepted comment, rating or image was sent by a user marked going
    while the window of the event was open. *)
Lemma postComment_gate db now fresh session id body :
  is_ok (fst (postComment db now fresh session id body)) = true ->
  marked_going db session id = true /\ window_open db now id = true.
Proof.
  unfold postComment, marked_going, window_open, unhandled.
  destruct session as [uid|]; [|discriminate].
  destruct (find_event db id) as [event|]; [|discriminate].
  destruct (find_going db id uid); [|discriminate].
  destruct (isInInteractionWindow now (event_endsAt event)); [auto|discriminate].
Qed.

Lemma postRating_gate db now fresh session id rating :
  is_ok (fst (postRating db now fresh session id rating)) = true ->
  marked_going db session id = true /\ window_open db now id = true.
Proof.
  unfold postRating, marked_going, window_open.
  destruct session as [uid|]; [|discriminate].
  destruct (validateRating rating); [|discriminate]. cbn [negb].
  destruct (find_event db id) as [event|]; [|discriminate].
  destruct (find_going db id uid); [|discriminate].
  destruct (isInInteractionWindow now (event_endsAt event)); [auto|discriminate].
Qed.

Lemma postImage_gate db now fresh storage session id data :
  is_ok (fst (postImage db now fresh storage session id data)) = true ->
  marked_going db session id = true /\ window_open db now id = true.
Proof.
  unfold postImage, marked_going, window_open.
  destruct session as [uid|]; [|discriminate].
  destruct (find_event db id) as [event|]; [|discriminate].
  destruct (find_going db id uid); [|discriminate].
  destruct (isInInteractionWindow now (event_endsAt event)); [auto|discriminate].
Qed.

(** The reply is one of the three refusals of the window check. *)
Definition window_denial {A} (r : Reply A) : bool :=
  match r with
  | Status code msg => (code =? 403)%nat && startsWith "Can only " msg
  | Ok _ => false
  end.

(** For a user marked going on an existing event, each of the three routes
    refuses by the window check exactly when the window is closed. *)
Lemma postComment_window db now fresh uid id body event :
  find_event db id = Some event ->
  marked_going db (Some uid) id = true ->
  window_denial (fst (postComment db now fresh (Some uid) id body))
  = negb (isInInteractionWindow now (event_endsAt event)).
Proof.
  unfold postComment, marked_going, unhandled. intros -> Hg.
  destruct (find_going db id uid); [|discriminate].
  destruct (isInInteractionWindow now (event_endsAt event)); [|reflexivity].
  cbn [negb].
  split_cases.
Qed.

Lemma postRating_window db now fresh uid id rating event :
  validateRating rating = true ->
  find_event db id = Some event ->
  marked_going db (Some uid) id = true ->
  window_denial (fst (postRating db now fresh (Some uid) id rating))
  = negb (isInInteractionWindow now (event_endsAt event)).
Proof.
  unfold postRating, marked_going. intros -> -> Hg. cbn [negb].
  destruct (find_going db id uid); [|discriminate].
  destruct (isInInteractionWindow now (event_endsAt event)); [|reflexivity].
  cbn [negb]. destruct (insert_rating _ _); reflexivity.
Qed.

Lemma postImage_window db now fresh storage uid id data event :
  find_event db id = Some event ->
  marked_going db (Some uid) id = true ->
  window_denial (fst (postImage db now fresh storage (Some uid) id data))
  = negb (isInInteractionWindow now (event_endsAt event)).
Proof.
  unfold postImage, marked_going. intros -> Hg.
  destruct (find_going db id uid); [|discriminate].
  destruct (isInInteractionWindow now (event_endsAt event)); [|reflexivity].
  cbn [negb].
  split_cases.
Qed.

(** The scenario, six hours after the end: the three actions go through. *)
Example scenario_six_hours_after :
  isInInteractionWindow Scenario.six_hours_after Scenario.ends = true
  /\ is_ok (fst (postComment Scenario.db Scenario.six_hours_after "c1"
                   (Some "u1") "e1" "great night")) = true
  /\ is_ok (fst (postRating Scenario.db Scenario.six_hours_after "r1"
                   (Some "u1") "e1" (45 # 10))) = true
  /\ is_ok (fst (postImage Scenario.db Scenario.six_hours_after "i1"
                   Scenario.bucket (Some "u1") "e1" (Some Scenario.photo))) = true.
Proof. vm_compute. auto. Qed.

(** The scenario, 169 hours after the end: the three actions are refused
    by the window check. *)
Example scenario_week_and_hour_after :
  isInInteractionWindow Scenario.week_and_hour_after Scenario.ends = false
  /\ fst (postComment Scenario.db Scenario.week_and_hour_after "c1"
            (Some "u1") "e1" "great night")
     = Status 403 "Can only comment within 7 days after event ends"
  /\ fst (postRating Scenario.db Scenario.week_and_hour_after "r1"
            (Some "u1") "e1" (45 # 10))
     = Status 403 "Can only rate within 7 days after event ends"
  /\ fst (postImage Scenario.db Scenario.week_and_hour_after "i1"
            Scenario.bucket (Some "u1") "e1" (Some Scenario.photo))
     = Status 403 "Can only upload images within 7 days after event ends".
Proof. vm_compute. auto. Qed.

(** C1, as the claim states it, fails at the instant the event ends: the
    event is LIVE there (start <= now <= end), the claimed window
    (end < now) is not open, and yet the window check passes and the
    comment, the rating and the image of a user marked going are
    accepted. *)
Lemma window_open_at_end_counterexample :
  let now := Scenario.ends in
  (Scenario.starts <=? now) && (now <=? Scenario.ends) = true
  /\ (Scenario.ends <? now) = false
  /\ isInInteractionWindow now Scenario.ends = true
  /\ is_ok (fst (postComment Scenario.db now "c1" (Some "u1") "e1" "great night"))
     = true
  /\ is_ok (fst (postRating Scenario.db now "r1" (Some "u1") "e1" (45 # 10)))
     = true
  /\ is_ok (fst (postImage Scenario.db now "i1" Scenario.bucket (Some "u1") "e1"
                   (Some Scenario.photo))) = true.
Proof. vm_compute. auto 10. Qed.

(** C1, amended: the window that gates comment, rate and upload-image is
    open exactly when end <= now <= end + 168 hours.  An accepted comment,
    rating or image comes from a user marked going while the window of the
    event is open, and a refusal leaves the tables unchanged; for a user
    marked going the window check refuses exactly when the window is
    closed, so before the end of the event (UPCOMING, and LIVE before its
    last instant) and more than 168 hours after it.  In the scenario the
    three actions are accepted 6 hours after the end and refused 169 hours
    after it. *)
Theorem interaction_window_gate :
  (forall now ends,
      isInInteractionWindow now ends = true
      <-> ends <= now <= ends + 168 * 60 * 60 * 1000)
  /\ (forall db now fresh storage session id body rating data,
        (is_ok (fst (postComment db now fresh session id body)) = true
         \/ is_ok (fst (postRating db now fresh session id rating)) = true
         \/ is_ok (fst (postImage db now fresh storage session id data)) = true) ->
        marked_going db session id = true /\ window_open db now id = true)
  /\ (forall db now fresh storage session id body rating data,
        (is_ok (fst (postComment db now fresh session id body)) = false ->
         snd (postComment db now fresh session id body) = db)
        /\ (is_ok (fst (postRating db now fresh session id rating)) = false ->
            snd (postRating db now fresh session id rating) = db)
        /\ (is_ok (fst (postImage db now fresh storage session id data)) = false ->
            snd (postImage db now fresh storage session id data) = db))
  /\ (forall db now fresh storage uid id body rating data event,
        find_event db id = Some event ->
        marked_going db (Some uid) id = true ->
        validateRating rating = true ->
        let closed := negb (isInInteractionWindow now (event_endsAt event)) in
        window_denial (fst (postComment db now fresh (Some uid) id body)) = closed
        /\ window_denial (fst (postRating db now fresh (Some uid) id rating)) = closed
        /\ window_denial (fst (postImage db now fresh storage (Some uid) id data))
           = closed)
  /\ (forall db now fresh storage session id body rating data event,
        find_event db id = Some event ->
        now < event_endsAt event \/ event_endsAt event + 168 * 60 * 60 * 1000 < now ->
        is_ok (fst (postComment db now fresh session id body)) = false
        /\ is_ok (fst (postRating db now fresh session id rating)) = false
        /\ is_ok (fst (postImage db now fresh storage session id data)) = false)
  /\ (is_ok (fst (postComment Scenario.db Scenario.six_hours_after "c1"
                    (Some "u1") "e1" "great night")) = true
      /\ window_denial (fst (postComment Scenario.db Scenario.week_and_hour_after
                               "c1" (Some "u1") "e1" "great night")) = true).
Proof.
  split; [|split; [|split; [|split; [|split]]]].
  - intros now ends. rewrite isInInteractionWindow_spec. lia.
  - intros db now fresh storage session id body rating data [H|[H|H]].
    + eapply postComment_gate; eauto.
    + eapply postRating_gate; eauto.
    + eapply postImage_gate; eauto.
  - intros db now fresh storage session id body rating data.
    split; [|split]; intros H.
    + destruct (postComment db now fresh session id body) as [[code msg|r] db'] eqn:E;
        [|discriminate]. eapply postComment_error_unchanged; eauto.
    + destruct (postRating db now fresh session id rating) as [[code msg|r] db'] eqn:E;
        [|discriminate]. eapply postRating_error_unchanged; eauto.
    + destruct (postImage db now fresh storage session id data)
        as [[code msg|r] db'] eqn:E; [|discriminate].
      eapply postImage_error_unchanged; eauto.
  - intros db now fresh storage uid id body rating data event He Hg Hv closed.
    split; [|split].
    + eapply postComment_window; eauto.
    + eapply postRating_window; eauto.
    + eapply postImage_window; eauto.
  - intros db now fresh storage session id body rating data event He Hout.
    assert (Hclosed : window_open db now id = false).
    { unfold window_open. rewrite He. apply isInInteractionWindow_closed. lia. }
    repeat split; apply not_true_iff_false; intros Hok.
    + apply postComment_gate in Hok as [_ Hok]. congruence.
    + apply postRating_gate in Hok as [_ Hok]. congruence.
    + apply postImage_gate in Hok as [_ Hok]. congruence.
  - vm_compute. auto.
Qed.

End WindowProperties.

(** ** The sort *)

Module SortProperties.

Section Sorting.

Context {A : Type} (comparefn : A -> A -> number).

Lemma sort_insert_perm (a : A) (l : list A) :
  Permutation (a :: l) (sort_insert comparefn a l).
Proof.
  induction l as [|b l IH]; cbn [sort_insert]; [reflexivity|].
  destruct (positive (comparefn a b)); [|reflexivity].
  rewrite perm_swap. apply perm_skip, IH.
Qed.

Lemma Array_sort_perm (l : list A) : Permutation l (Array_sort comparefn l).
Proof.
  induction l as [|a l IH]; cbn [Array_sort]; [reflexivity|].
  rewrite <- sort_insert_perm. apply perm_skip, IH.
Qed.

Lemma Array_sort_In (l : list A) (x : A) :
  In x (Array_sort comparefn l) <-> In x l.
Proof.
  split; apply Permutation_in;
    [apply Permutation_sym|]; apply Array_sort_perm.
Qed.

Lemma Array_sort_Forall (P : A -> Prop) (l : list A) :
  Forall P l -> Forall P (Array_sort comparefn l).
Proof.
  rewrite !List.Forall_forall. intros H x Hx. apply H, Array_sort_In, Hx.
Qed.

(** Stability: the elements of a class whose members the comparator
    never orders one after the other keep their input order. *)
Lemma sort_insert_filter_in (P : A -> bool) (a : A) (l : list A) :
  (forall b, P b = true -> positive (comparefn a b) = false) ->
  P a = true ->
  List.filter P (sort_insert comparefn a l) = a :: List.filter P l.
Proof.
  intros Htie Ha. induction l as [|b l IH]; cbn [sort_insert List.filter].
  - now rewrite Ha.
  - destruct (positive (comparefn a b)) eqn:Hp; cbn [List.filter].
    + destruct (P b) eqn:Hb; [rewrite Htie in Hp; [discriminate|exact Hb]|].
      exact IH.
    + now rewrite Ha.
Qed.

Lemma sort_insert_filter_out (P : A -> bool) (a : A) (l : list A) :
  P a = false ->
  List.filter P (sort_insert comparefn a l) = List.filter P l.
Proof.
  intros Ha. induction l as [|b l IH]; cbn [sort_insert List.filter].
  - now rewrite Ha.
  - destruct (positive (comparefn a b)); cbn [List.filter].
    + now rewrite IH.
    + now rewrite Ha.
Qed.

Lemma Array_sort_stable (P : A -> bool) (l : list A) :
  (forall a b, P a = true -> P b = true -> positive (comparefn a b) = false) ->
  List.filter P (Array_sort comparefn l) = List.filter P l.
Proof.
  intros Htie. induction l as [|a l IH]; cbn [Array_sort List.filter]; [reflexivity|].
  destruct (P a) eqn:Ha.
  - rewrite sort_insert_filter_in; auto. now rewrite IH.
  - rewrite sort_insert_filter_out; auto.
Qed.

(** Order: when the comparator is total and transitive, the result is
    sorted. *)
Definition precedes (a b : A) : Prop := positive (comparefn a b) = false.

Hypothesis total : forall a b, positive (comparefn a b) = true -> precedes b a.
Hypothesis transitive : forall a b c, precedes a b -> precedes b c -> precedes a c.

Lemma sort_insert_sorted (a : A) (l : list A) :
  StronglySorted precedes l -> StronglySorted precedes (sort_insert comparefn a l).
Proof.
  induction 1 as [|b l Hs IH Hb]; cbn [sort_insert].
  - repeat constructor.
  - destruct (positive (comparefn a b)) eqn:Hp.
    + constructor; [exact IH|].
      eapply Permutation_Forall; [apply sort_insert_perm|].
      constructor; [apply total, Hp|exact Hb].
    + constructor; [constructor; assumption|].
      constructor; [exact Hp|].
      eapply List.Forall_impl; [|exact Hb]. intros c Hc.
      eapply transitive; eauto.
Qed.

Lemma Array_sort_sorted (l : list A) :
  StronglySorted precedes (Array_sort comparefn l).
Proof.
  induction l as [|a l IH]; cbn [Array_sort]; [constructor|].
  apply sort_insert_sorted, IH.
Qed.

(** [a] and [b] are tied: the comparator puts neither after the other. *)
Definition tied (a b : A) : bool :=
  negb (positive (comparefn a b)) && negb (positive (comparefn b a)).

Lemma tied_iff (a b : A) : tied a b = true <-> precedes a b /\ precedes b a.
Proof.
  unfold tied, precedes. rewrite andb_true_iff, !negb_true_iff. reflexivity.
Qed.

Lemma precedes_refl (a : A) : precedes a a.
Proof.
  destruct (positive (comparefn a a)) eqn:H; [apply total, H|exact H].
Qed.

Lemma Array_sort_tied_stable (x : A) (l : list A) :
  List.filter (tied x) (Array_sort comparefn l) = List.filter (tied x) l.
Proof.
  apply Array_sort_stable. intros a b Ha Hb.
  apply tied_iff in Ha as [_ Ha]. apply tied_iff in Hb as [Hb _].
  exact (transitive a x b Ha Hb).
Qed.

(** Two sorted rearrangements of a list that keep the order of tied
    elements are the same list. *)
Lemma stable_sorted_unique (s1 s2 : list A) :
  StronglySorted precedes s1 -> StronglySorted precedes s2 ->
  Permutation s1 s2 ->
  (forall x, List.filter (tied x) s1 = List.filter (tied x) s2) ->
  s1 = s2.
Proof.
  intros H1. revert s2. induction H1 as [|a t1 Ht1 IH Ha]; intros s2 H2 Hp Hf.
  - now apply Permutation_nil in Hp.
  - destruct H2 as [|b t2 Ht2 Hb].
    { apply Permutation_sym, Permutation_nil in Hp. discriminate. }
    assert (Hab : precedes a b).
    { assert (Hin : In b (a :: t1)).
      { eapply Permutation_in; [apply Permutation_sym, Hp|now left]. }
      destruct Hin as [<-|Hin]; [apply precedes_refl|].
      rewrite List.Forall_forall in Ha. auto. }
    assert (Hba : precedes b a).
    { assert (Hin : In a (b :: t2)).
      { eapply Permutation_in; [apply Hp|now left]. }
      destruct Hin as [<-|Hin]; [apply precedes_refl|].
      rewrite List.Forall_forall in Hb. auto. }
    assert (Heq : a = b).
    { specialize (Hf a). cbn [List.filter] in Hf.
      assert (Haa : tied a a = true) by (apply tied_iff; split; apply precedes_refl).
      assert (Htb : tied a b = true) by (apply tied_iff; split; assumption).
      rewrite Haa, Htb in Hf. congruence. }
    subst b. f_equal. apply IH; [exact Ht2|eapply Permutation_cons_inv, Hp|].
    intros x. specialize (Hf x). cbn [List.filter] in Hf.
    destruct (tied x a); congruence.
Qed.

(** So every stable sort gives what [Array_sort] gives. *)
Lemma Array_sort_unique (l sorted : list A) :
  Permutation l sorted ->
  StronglySorted precedes sorted ->
  (forall x, List.filter (tied x) sorted = List.filter (tied x) l) ->
  sorted = Array_sort comparefn l.
Proof.
  intros Hp Hs Hf. apply stable_sorted_unique.
  - exact Hs.
  - apply Array_sort_sorted.
  - rewrite <- Hp. apply Array_sort_perm.
  - intros x. now rewrite Hf, Array_sort_tied_stable.
Qed.

End Sorting.

End SortProperties.

(** ** The general feed lists published events only *)

Module FeedProperties.

Lemma status_eqb_eq (a b : EventStatus) : status_eqb a b = true -> a = b.
Proof. destruct a, b; simpl; congruence. Qed.

Section Backend.

Variable ilike : string -> string -> bool.
Variable parseFloat : string -> option Q.
Variable calculateDistance : Q -> Q -> Q -> Q -> Q.
Variable toDateString : Z -> string.

Lemma whereConditions_published (q : Events.FeedQuery) (e : Event) :
  Events.sql_and (Events.whereConditions ilike q) e = true ->
  event_status e = Published.
Proof.
  unfold Events.sql_and, Events.whereConditions.
  cbn [app forallb]. rewrite andb_true_iff. intros [H _].
  apply status_eqb_eq, H.
Qed.

Lemma getEvents_elements db now q l :
  Events.getEvents ilike parseFloat calculateDistance toDateString db now q = Ok l ->
  Forall (fun fe =>
            In (Events.fe_event fe) (events db)
            /\ Events.sql_and (Events.whereConditions ilike q) (Events.fe_event fe) = true
            /\ exists userLat userLng,
                 fe = Events.enrich calculateDistance toDateString db now
                        userLat userLng (Events.fe_event fe)) l.
Proof.
  unfold Events.getEvents.
  destruct (Events.q_lat q) as [la|]; [|discriminate].
  destruct (Events.q_lng q) as [ln|]; [|discriminate].
  destruct (negb (truthy la) || negb (truthy ln)); [discriminate|].
  destruct (parseFloat la) as [userLat|]; [|discriminate].
  destruct (parseFloat ln) as [userLng|]; [|discriminate].
  intros [= <-].
  apply SortProperties.Array_sort_Forall.
  rewrite List.Forall_map. apply SortProperties.Array_sort_Forall.
  rewrite List.Forall_forall. intros e He.
  apply List.filter_In in He as [Hin Hc]. cbn [Events.fe_event Events.enrich].
  eauto.
Qed.

End Backend.

Section Screen.

Variable ilike : string -> string -> bool.
Variable parseFloat : string -> number.
Variable calculateDistance : Q -> Q -> Q -> Q -> Q.
Variable resolvePoster : option string -> option string.

Lemma query_published now f table :
  Forall (fun e => Home.status e = "published") (Home.query ilike now f table).
Proof.
  assert (Hp : Forall (fun e => Home.status e = "published")
                 (List.filter (fun e => String.eqb (Home.status e) "published") table)).
  { rewrite List.Forall_forall. intros e He.
    apply List.filter_In in He as [_ He]. now apply String.eqb_eq. }
  assert (Hf : forall (p : Home.Event -> bool) l,
             Forall (fun e => Home.status e = "published") l ->
             Forall (fun e => Home.status e = "published") (List.filter p l)).
  { intros p l. rewrite !List.Forall_forall. intros H e He.
    apply List.filter_In in He as [He _]. auto. }
  unfold Home.query.
  destruct (Home.organizerFilterId f).
  - apply SortProperties.Array_sort_Forall. auto.
  - apply SortProperties.Array_sort_Forall.
    repeat match goal with
           | |- context [if ?c then _ else _] => destruct c
           end; auto 10.
Qed.

Lemma withDistance_status location e :
  Home.status (Home.withDistance parseFloat calculateDistance location e)
  = Home.status e.
Proof.
  unfold Home.withDistance. destruct (resolveEventCoords _ _ _ _); reflexivity.
Qed.

Lemma fetchEvents_published location isFetching now f error table l :
  Home.fetchEvents ilike parseFloat calculateDistance resolvePoster
    location isFetching now f error table = Some l ->
  Forall (fun e => Home.status e = "published") l.
Proof.
  unfold Home.fetchEvents, Home.rankEvents.
  destruct location as [loc|]; [|discriminate].
  destruct isFetching; [discriminate|].
  destruct error as [[|]|]; [discriminate|intros [= <-]; constructor|].
  intros [= <-].
  rewrite List.Forall_map. apply SortProperties.Array_sort_Forall.
  rewrite List.Forall_map.
  eapply List.Forall_impl; [|apply query_published].
  intros e He. cbn [Home.withPoster Home.status].
  rewrite withDistance_status. exact He.
Qed.

End Screen.

(** A feed table with a draft, a published and a cancelled event. *)
Definition three_events : DB :=
  let with_status (id : string) (st : EventStatus) :=
    {| event_id := id; event_organizerId := "org"; event_title := id;
       event_description := None; event_lineup := None;
       event_posterUrl := None; event_region := "Gorenjska";
       event_city := "Kranj"; event_address := "";
       event_lat := 462389 # 10000; event_lng := 143555 # 10000;
       event_startsAt := Scenario.starts; event_endsAt := Scenario.ends;
       event_genre := "rock"; event_ageLabel := "18+";
       event_priceType := Paid; event_price := Some 10%Q;
       event_ticketUrl := None; event_status := st; event_createdAt := 0 |} in
  {| profiles := []; eventGoing := []; eventComments := []; eventImages := [];
     eventRatings := [];
     events := [with_status "d" Draft; with_status "p" Published;
                with_status "c" Cancelled] |}.

Example feed_of_three_events :
  match Events.getEvents (fun _ _ => true) (fun _ => Some 0%Q) (fun _ _ _ _ => 0%Q)
          (fun _ => "") three_events 0
          {| Events.q_lat := Some "46"; Events.q_lng := Some "14";
             Events.q_region := Some "Gorenjska"; Events.q_city := None;
             Events.q_genre := Some "rock"; Events.q_search := Some "x" |} with
  | Ok l => List.map (fun fe => event_id (Events.fe_event fe)) l = ["p"]
  | Status _ _ => False
  end.
Proof. vm_compute. reflexivity. Qed.

(** C2: whatever the filters (region, city, genre, free-text search, or
    none), every event the general feed lists has status published, on
    the route GET /api/events and in the list the home screen fetches;
    the route takes no caller identity, so this is what any caller
    receives.  Draft and cancelled events are never listed. *)
Theorem general_feed_only_published :
  forall (ilike : string -> string -> bool) (parseFloat : string -> option Q)
         (calculateDistance : Q -> Q -> Q -> Q -> Q) (toDateString : Z -> string)
         (db : DB) (now : Z) (q : Events.FeedQuery)
         (parseFloat' : string -> number) (resolvePoster : option string -> option string)
         (location : option LatLng) (isFetching : bool) (f : Home.Filters)
         (error : option Home.QueryError) (table : list Home.Event),
    match Events.getEvents ilike parseFloat calculateDistance toDateString db now q with
    | Ok l =>
        Forall (fun fe => event_status (Events.fe_event fe) = Published
                          /\ event_status (Events.fe_event fe) <> Draft
                          /\ event_status (Events.fe_event fe) <> Cancelled) l
    | Status _ _ => True
    end
    /\ match Home.fetchEvents ilike parseFloat' calculateDistance resolvePoster
               location isFetching now f error table with
       | Some l => Forall (fun e => Home.status e = "published") l
       | None => True
       end.
Proof.
  intros. split.
  - destruct (Events.getEvents _ _ _ _ _ _ _) as [|l] eqn:E; [exact I|].
    eapply List.Forall_impl; [|eapply getEvents_elements; exact E].
    intros fe (_ & Hc & _). apply whereConditions_published in Hc.
    rewrite Hc. repeat split; congruence.
  - destruct (Home.fetchEvents _ _ _ _ _ _ _ _ _ _) as [l|] eqn:E; [|exact I].
    eapply fetchEvents_published; exact E.
Qed.

End FeedProperties.

(** ** Retracting attendance *)

Module AttendanceProperties.

Import Interactions.

Lemma find_filter_negb {A} (p : A -> bool) (l : list A) :
  List.find p (List.filter (fun x => negb (p x)) l) = None.
Proof.
  induction l as [|a l IH]; [reflexivity|]. cbn [List.filter].
  destruct (p a) eqn:Ha; cbn [negb]; [exact IH|].
  cbn [List.find]. now rewrite Ha.
Qed.

(** The route never looks at the event or at the clock: a signed-in user
    is always unmarked. *)
Lemma deleteGoing_always (db : DB) (uid id : string) :
  fst (deleteGoing db (Some uid) id) = Ok tt
  /\ find_going (snd (deleteGoing db (Some uid) id)) id uid = None.
Proof.
  split; [reflexivity|]. cbn. unfold find_going, delete_going. cbn.
  apply find_filter_negb.
Qed.

(** The toggle of the event screen refuses to unmark once the event has
    started, and leaves the attendance rows as they are. *)
Lemma handleGoingToggle_started now fresh hasPermission uid ev goingCount failure rows :
  Home.starts_at ev <= now ->
  let t := EventDetail.handleGoingToggle now fresh hasPermission (Some uid) (Some ev)
             true goingCount failure rows in
  EventDetail.shown t
  = EventDetail.Toasted (EventDetail.ToastError
      "Ne morete odstraniti udeležbe, dogodek se je že začel")
  /\ EventDetail.isGoing' t = true
  /\ EventDetail.event_going' t = rows.
Proof.
  intros H. cbn. apply Z.leb_le in H. rewrite H. cbn. auto.
Qed.

Lemma handleGoingToggle_started_example :
  Scenario.starts <= Scenario.six_hours_after
  /\ EventDetail.event_going'
       (EventDetail.handleGoingToggle Scenario.six_hours_after "g2" true (Some "u1")
          (Some {| Home.id := "e1"; Home.title := "Night"; Home.description := "";
                   Home.poster_url := None; Home.region := "Osrednjeslovenska";
                   Home.city := Some "Ljubljana"; Home.address := "";
                   Home.ev_lat := VOther; Home.ev_lng := VOther;
                   Home.starts_at := Scenario.starts; Home.ends_at := Scenario.ends;
                   Home.genre := "techno"; Home.status := "published";
                   Home.organizer_id := "org"; Home.distance := None |})
          true 1 None (eventGoing Scenario.db))
     = eventGoing Scenario.db.
Proof.
  split; [vm_compute; discriminate|].
  apply (handleGoingToggle_started Scenario.six_hours_after "g2" true "u1").
  vm_compute; discriminate.
Defined.

(** C3 fails on the route DELETE /api/events/:id/going: for the user
    marked going on the event of the scenario, six hours after its end
    (so now >= start), the route answers success and the attendance row
    is gone.  The route unmarks every signed-in user at every instant. *)
Theorem deleteGoing_after_start :
  (Scenario.starts <=? Scenario.six_hours_after) = true
  /\ find_going Scenario.db "e1" "u1"
     = Some {| going_id := "g1"; going_eventId := "e1"; going_userId := "u1" |}
  /\ fst (deleteGoing Scenario.db (Some "u1") "e1") = Ok tt
  /\ eventGoing (snd (deleteGoing Scenario.db (Some "u1") "e1")) = []
  /\ (forall db uid id,
        fst (deleteGoing db (Some uid) id) = Ok tt
        /\ find_going (snd (deleteGoing db (Some uid) id)) id uid = None).
Proof.
  repeat split; try reflexivity. apply deleteGoing_always.
Qed.

End AttendanceProperties.

(** ** One rating per event and user *)

Module RatingProperties.

Import Interactions.

Definition rating_key (r : Rating) : string * string :=
  (rating_eventId r, rating_userId r).

(** No two rows of [event_ratings] have the same (event, user) pair. *)
Definition unique_ratings (db : DB) : Prop :=
  NoDup (List.map rating_key (eventRatings db)).

(** The requests that reach the routes modelled here. *)
Inductive Request : Type :=
| PostGoing (fresh : string) (session : option string) (id : string)
| DeleteGoing (session : option string) (id : string)
| PostComment (now : Z) (fresh : string) (session : option string) (id body : string)
| PostImage (now : Z) (fresh : string) (storage : ObjectStorage)
    (session : option string) (id : string) (data : option UploadedFile)
| PostRating (now : Z) (fresh : string) (session : option string) (id : string)
    (rating : Q)
| PutRating (session : option string) (rid : string) (rating : Q)
| DeleteRatingAdmin (session : option string) (rid : string)
| DeleteEvent (now : Z) (session : option string) (id : string).

Definition handle (db : DB) (r : Request) : DB :=
  match r with
  | PostGoing fresh session id => snd (postGoing db fresh session id)
  | DeleteGoing session id => snd (deleteGoing db session id)
  | PostComment now fresh session id body =>
      snd (postComment db now fresh session id body)
  | PostImage now fresh storage session id data =>
      snd (postImage db now fresh storage session id data)
  | PostRating now fresh session id rating =>
      snd (postRating db now fresh session id rating)
  | PutRating session rid rating => snd (putRating db session rid rating)
  | DeleteRatingAdmin session rid => snd (deleteRatingAdmin db session rid)
  | DeleteEvent now session id => snd (Events.deleteEvent db now session id)
  end.

Definition serve (db : DB) (requests : list Request) : DB :=
  fold_left handle requests db.

Lemma rating_matches_key (id uid : string) (r : Rating) :
  rating_matches id uid r = true <-> rating_key r = (id, uid).
Proof.
  unfold rating_matches, rating_key.
  rewrite andb_true_iff, !String.eqb_eq. split; [intros [-> ->]|intros [= -> ->]]; auto.
Qed.

(** The unique index: an insert for a pair that has a row throws. *)
Lemma insert_rating_duplicate (db : DB) (r existing : Rating) :
  In existing (eventRatings db) ->
  rating_key existing = rating_key r ->
  insert_rating db r = Throws.
Proof.
  intros Hin Hk. unfold insert_rating.
  assert (E : existsb (fun x => String.eqb (rating_id x) (rating_id r)
                                || rating_matches (rating_eventId r) (rating_userId r) x)
                      (eventRatings db) = true).
  { apply List.existsb_exists. exists existing. split; [exact Hin|].
    apply orb_true_iff. right. apply rating_matches_key. exact Hk. }
  now rewrite E.
Qed.

Lemma insert_rating_returns (db db' : DB) (r : Rating) :
  insert_rating db r = Returns db' ->
  db' = with_ratings db (eventRatings db ++ [r])
  /\ ~ In (rating_key r) (List.map rating_key (eventRatings db)).
Proof.
  unfold insert_rating.
  destruct (existsb _ _) eqn:E; [discriminate|]. cbn [orb].
  destruct (negb _); [discriminate|]. intros [= <-]. split; [reflexivity|].
  intros Hin. apply List.in_map_iff in Hin as (x & Hk & Hx).
  assert (existsb (fun x => String.eqb (rating_id x) (rating_id r)
                            || rating_matches (rating_eventId r) (rating_userId r) x)
                  (eventRatings db) = true) as E'; [|congruence].
  apply List.existsb_exists. exists x. split; [exact Hx|].
  apply orb_true_iff. right. apply rating_matches_key. exact Hk.
Qed.

Lemma insert_rating_unique (db db' : DB) (r : Rating) :
  unique_ratings db -> insert_rating db r = Returns db' -> unique_ratings db'.
Proof.
  intros Hu Hi. apply insert_rating_returns in Hi as [-> Hfresh].
  unfold unique_ratings. cbn. rewrite List.map_app. cbn.
  apply NoDup_app. split; [exact Hu|]. split.
  - intros x Hx Hx'. apply list_elem_of_In in Hx, Hx'.
    destruct Hx' as [<-|[]]. auto.
  - repeat constructor. intros H. apply list_elem_of_In in H. destruct H.
Qed.

Lemma NoDup_map_filter {A B} (f : A -> B) (p : A -> bool) (l : list A) :
  NoDup (List.map f l) -> NoDup (List.map f (List.filter p l)).
Proof.
  induction l as [|a l IH]; cbn; [auto|].
  rewrite !NoDup_cons. intros [Ha Hl].
  destruct (p a); cbn; [rewrite NoDup_cons; split|]; auto.
  intros Hin. apply Ha. apply list_elem_of_In in Hin. apply list_elem_of_In.
  apply List.in_map_iff in Hin as (x & <- & Hx).
  apply List.filter_In in Hx as [Hx _]. now apply List.in_map.
Qed.

Lemma set_rating_keys (rid : string) (v : Q) (l : list Rating) :
  List.map rating_key (List.map (set_rating rid v) l) = List.map rating_key l.
Proof.
  rewrite List.map_map. apply List.map_ext. intros r.
  unfold set_rating. destruct (String.eqb _ _); reflexivity.
Qed.

Lemma postGoing_ratings db fresh session id :
  eventRatings (snd (postGoing db fresh session id)) = eventRatings db.
Proof.
  unfold postGoing, insert_going.
  destruct session; [|reflexivity].
  destruct (find_event db id); [|reflexivity].
  destruct (String.eqb _ _); [reflexivity|].
  destruct (existsb _ _); reflexivity.
Qed.

Lemma postComment_ratings db now fresh session id body :
  eventRatings (snd (postComment db now fresh session id body)) = eventRatings db.
Proof.
  unfold postComment, insert_comment.
  destruct session as [uid|]; [|reflexivity].
  destruct (find_event db id); [|reflexivity].
  destruct (find_going db id uid); [|reflexivity].
  destruct (negb _); [reflexivity|]. cbv zeta.
  destruct (_ =? _)%nat; [reflexivity|].
  destruct (_ <? _)%nat; [reflexivity|].
  destruct (existsb _ _); reflexivity.
Qed.

Lemma postImage_ratings db now fresh storage session id data :
  eventRatings (snd (postImage db now fresh storage session id data))
  = eventRatings db.
Proof.
  unfold postImage, insert_image.
  destruct session as [uid|]; [|reflexivity].
  destruct (find_event db id); [|reflexivity].
  destruct (find_going db id uid); [|reflexivity].
  destruct (negb _); [reflexivity|].
  destruct (_ <=? _)%nat; [reflexivity|].
  destruct data as [file|]; [|reflexivity].
  destruct (file_toBuffer file); [|reflexivity]. cbv zeta.
  destruct (storage_upload _ _ _); [|reflexivity].
  destruct (storage_getSignedUrl _ _); [|reflexivity].
  destruct (existsb _ _); reflexivity.
Qed.

(** Every route keeps the pairs of the rating rows distinct. *)
Lemma handle_unique (db : DB) (r : Request) :
  unique_ratings db -> unique_ratings (handle db r).
Proof.
  intros Hu. destruct r; cbn [handle]; unfold unique_ratings in *.
  - now rewrite postGoing_ratings.
  - unfold deleteGoing. destruct session; exact Hu.
  - now rewrite postComment_ratings.
  - now rewrite postImage_ratings.
  - unfold postRating.
    destruct session; [|exact Hu].
    destruct (negb (validateRating rating)); [exact Hu|].
    destruct (find_event db id); [|exact Hu].
    destruct (find_going db id s); [|exact Hu].
    destruct (negb (isInInteractionWindow _ _)); [exact Hu|].
    destruct (insert_rating db _) eqn:E; [|exact Hu].
    cbn [snd]. eapply insert_rating_unique; eauto.
  - unfold putRating.
    destruct session; [|exact Hu].
    destruct (negb (validateRating rating)); [exact Hu|].
    destruct (find_rating_by_id db rid); [|exact Hu].
    destruct (_ && _); [exact Hu|].
    cbn. now rewrite set_rating_keys.
  - unfold deleteRatingAdmin.
    destruct session; [|exact Hu].
    destruct (negb (is_admin db s)); [exact Hu|].
    destruct (find_rating_by_id db rid); [|exact Hu].
    cbn. now apply NoDup_map_filter.
  - unfold Events.deleteEvent.
    destruct session; [|exact Hu].
    destruct (find_event db id); [|exact Hu].
    destruct (_ && _); [exact Hu|].
    destruct (_ && _); [exact Hu|].
    cbn. now apply NoDup_map_filter.
Qed.

Lemma serve_unique (requests : list Request) (db : DB) :
  unique_ratings db -> unique_ratings (serve db requests).
Proof.
  revert db. induction requests as [|r rs IH]; intros db Hu; [exact Hu|].
  cbn. apply IH, handle_unique, Hu.
Qed.

(** The checks of POST /api/events/:id/ratings that come before the
    insert: the value, the event, the attendance, the window. *)
Definition passes_checks (db : DB) (now : Z) (uid id : string) (rating : Q) : bool :=
  validateRating rating
  && match find_event db id with
     | Some event =>
         match find_going db id uid with
         | Some _ => isInInteractionWindow now (event_endsAt event)
         | None => false
         end
     | None => false
     end.

Lemma postRating_resubmission db now fresh uid id rating existing :
  In existing (eventRatings db) ->
  rating_key existing = (id, uid) ->
  snd (postRating db now fresh (Some uid) id rating) = db
  /\ (if passes_checks db now uid id rating
      then fst (postRating db now fresh (Some uid) id rating)
           = Status 409 "Already rated this event"
      else exists code msg,
          fst (postRating db now fresh (Some uid) id rating) = Status code msg
          /\ code <> 409%nat).
Proof.
  intros Hin Hk. unfold postRating, passes_checks.
  destruct (validateRating rating); cbn [negb andb];
    [|split; [reflexivity|do 2 eexists; split; [reflexivity|discriminate]]].
  destruct (find_event db id) as [event|];
    [|split; [reflexivity|do 2 eexists; split; [reflexivity|discriminate]]].
  destruct (find_going db id uid);
    [|split; [reflexivity|do 2 eexists; split; [reflexivity|discriminate]]].
  destruct (isInInteractionWindow now (event_endsAt event)); cbn [negb];
    [|split; [reflexivity|do 2 eexists; split; [reflexivity|discriminate]]].
  erewrite insert_rating_duplicate; [split; reflexivity|exact Hin|exact Hk].
Qed.

(** The tables after the user of the scenario has rated the event. *)
Definition rated : DB :=
  snd (postRating Scenario.db Scenario.six_hours_after "r1" (Some "u1") "e1" (45 # 10)).

(** C4, as the claim states it, fails on a second submission that an
    earlier check stops: the user of the scenario has a rating and rates
    again 169 hours after the end; the answer is the refusal of the window
    check (403), not the already-rated conflict (409). *)
Lemma resubmission_after_window_counterexample :
  List.map rating_key (eventRatings rated) = [("e1", "u1")]
  /\ fst (postRating rated Scenario.week_and_hour_after "r2" (Some "u1") "e1" 3)
     = Status 403 "Can only rate within 7 days after event ends"
  /\ snd (postRating rated Scenario.week_and_hour_after "r2" (Some "u1") "e1" 3)
     = rated.
Proof. vm_compute. auto. Qed.

(** C4, amended: for every (event, user) pair at most one rating row ever
    exists, whatever requests are served.  A rating submission by a user
    who has a rating for the event fails and leaves the tables unchanged:
    with the already-rated conflict (409) when it passes the checks that
    precede the insert (valid value, existing event, marked going, window
    open), and with the error of the first failed check otherwise.  The
    route has no check of its own for an existing rating: the insert
    throws on the unique index over (event, user). *)
Theorem one_rating_per_event_and_user (db : DB) (Hu : unique_ratings db) :
  (forall requests, unique_ratings (serve db requests))
  /\ (forall now fresh uid id rating existing,
        In existing (eventRatings db) ->
        rating_key existing = (id, uid) ->
        is_ok (fst (postRating db now fresh (Some uid) id rating)) = false
        /\ snd (postRating db now fresh (Some uid) id rating) = db
        /\ (passes_checks db now uid id rating = true ->
            fst (postRating db now fresh (Some uid) id rating)
            = Status 409 "Already rated this event")
        /\ (passes_checks db now uid id rating = false ->
            exists code msg,
              fst (postRating db now fresh (Some uid) id rating) = Status code msg
              /\ code <> 409%nat))
  /\ (forall r existing,
        In existing (eventRatings db) ->
        rating_key existing = rating_key r ->
        insert_rating db r = Throws).
Proof.
  split; [|split].
  - intros requests. apply serve_unique, Hu.
  - intros now fresh uid id rating existing Hin Hk.
    destruct (postRating_resubmission db now fresh uid id rating existing Hin Hk)
      as [Hdb Hreply].
    destruct (passes_checks db now uid id rating).
    + rewrite Hreply. repeat split; auto. discriminate.
    + destruct Hreply as (code & msg & -> & Hc).
      repeat split; auto; [discriminate|eauto].
  - intros r existing. apply insert_rating_duplicate.
Qed.

Lemma one_rating_per_event_and_user_witness :
  unique_ratings rated
  /\ fst (postRating rated Scenario.six_hours_after "r2" (Some "u1") "e1" 3)
     = Status 409 "Already rated this event".
Proof.
  assert (Hu : unique_ratings rated).
  { unfold unique_ratings. vm_compute. repeat constructor. intros H.
    apply list_elem_of_In in H. destruct H. }
  split; [exact Hu|].
  destruct (one_rating_per_event_and_user rated Hu) as (_ & H & _).
  destruct (H Scenario.six_hours_after "r2" "u1" "e1" 3%Q
              {| rating_id := "r1"; rating_eventId := "e1"; rating_userId := "u1";
                 rating_value := 45 # 10;
                 rating_createdAt := Scenario.six_hours_after |})
    as (_ & _ & H409 & _).
  - vm_compute. auto.
  - reflexivity.
  - apply H409. vm_compute. reflexivity.
Defined.

End RatingProperties.

(** ** Validation of a rating value *)

Module ValidationProperties.

Import Interactions.










End ValidationProperties.

(** ** The average rating *)

Module AverageProperties.

(** The rating values of the event in the table, in table order. *)
Definition ratings_of (db : DB) (e : Event) : list Q :=
  List.map rating_value
    (List.filter (fun r => String.eqb (event_id e) (rating_eventId r))
                 (eventRatings db)).

Definition mean (l : list Q) : Q :=
  (Events.Qsum l / inject_Z (Z.of_nat (List.length l)))%Q.

(** [avg] is null over no value and the arithmetic mean otherwise. *)
Definition is_mean_of (l : list Q) (avg : option Q) : Prop :=
  match avg with
  | None => l = []
  | Some m => l <> [] /\ (m == mean l)%Q
  end.

Lemma omap_id_Some {A} (l : list A) : omap id (List.map Some l) = l.
Proof. induction l as [|a l IH]; cbn; [reflexivity|]. now rewrite IH. Qed.

Lemma omap_id_app {A} (l1 l2 : list (option A)) :
  omap id (l1 ++ l2)%list = (omap id l1 ++ omap id l2)%list.
Proof.
  induction l1 as [|[a|] l1 IH]; cbn; [reflexivity| |]; now rewrite ?IH.
Qed.

Lemma Qsum_app (l1 l2 : list Q) :
  (Events.Qsum (l1 ++ l2)%list == Events.Qsum l1 + Events.Qsum l2)%Q.
Proof.
  induction l1 as [|a l1 IH]; cbn.
  - now rewrite Qplus_0_l.
  - rewrite IH. apply Qplus_assoc.
Qed.

Lemma sql_avg_mean (column : list (option Q)) :
  is_mean_of (omap id column) (Events.sql_avg column).
Proof.
  unfold Events.sql_avg, is_mean_of, mean.
  destruct (omap id column); [reflexivity|]. split; [discriminate|reflexivity].
Qed.

(** The rating column of the joined rows repeats the ratings of the event
    once for each row of the first join. *)
Section Join.

Context {A : Type}.

Lemma rating_column_repeats (rows : list A) (ratings : list Rating) :
  omap id (List.map (fun row : A * option Rating => option_map rating_value (snd row))
                    (Events.left_join rows ratings))
  = flat_map (fun _ => List.map rating_value ratings) rows.
Proof.
  induction rows as [|a rows IH]; [reflexivity|].
  unfold Events.left_join in *. cbn [flat_map].
  rewrite List.map_app, omap_id_app, IH. f_equal.
  destruct ratings as [|r rs]; [reflexivity|].
  rewrite List.map_map. cbn [snd option_map].
  rewrite <- (omap_id_Some (List.map rating_value (r :: rs))).
  now rewrite List.map_map.
Qed.

Lemma left_join_nonempty {B} (a : A) (rows : list A) (partners : list B) :
  Events.left_join (a :: rows) partners <> [].
Proof.
  unfold Events.left_join. cbn [flat_map].
  destruct partners; cbn; discriminate.
Qed.

End Join.

Lemma Qsum_repeats {A} (rows : list A) (vs : list Q) :
  (Events.Qsum (flat_map (fun _ => vs) rows)
   == inject_Z (Z.of_nat (List.length rows)) * Events.Qsum vs)%Q.
Proof.
  induction rows as [|a rows IH].
  - cbn. now rewrite Qmult_0_l.
  - cbn [flat_map List.length]. rewrite Qsum_app, IH.
    rewrite Nat2Z.inj_succ, <- Z.add_1_r, inject_Z_plus. cbn. ring.
Qed.

Lemma length_repeats {A B} (rows : list A) (vs : list B) :
  List.length (flat_map (fun _ => vs) rows)
  = (List.length rows * List.length vs)%nat.
Proof.
  induction rows as [|a rows IH]; [reflexivity|].
  cbn [flat_map List.length]. rewrite List.length_app, IH. reflexivity.
Qed.

Lemma mean_repeats {A} (rows : list A) (vs : list Q) :
  rows <> [] -> vs <> [] ->
  (mean (flat_map (fun _ => vs) rows) == mean vs)%Q.
Proof.
  intros Hr Hv. unfold mean.
  rewrite Qsum_repeats, length_repeats, Nat2Z.inj_mul, inject_Z_mult.
  assert (Hn : ~ (inject_Z (Z.of_nat (List.length rows)) == 0)%Q).
  { destruct rows; [congruence|]. cbn [List.length].
    rewrite Nat2Z.inj_succ. unfold Qeq, inject_Z. cbn. lia. }
  assert (Hl : ~ (inject_Z (Z.of_nat (List.length vs)) == 0)%Q).
  { destruct vs; [congruence|]. cbn [List.length].
    rewrite Nat2Z.inj_succ. unfold Qeq, inject_Z. cbn. lia. }
  field. auto.
Qed.

(** The average over the joined rows of an event is the mean of its
    ratings. *)
Lemma joined_rows_avg (db : DB) (e : Event) :
  is_mean_of (ratings_of db e)
    (Events.sql_avg
       (List.map (fun row : Events.JoinedRow => option_map rating_value (snd row))
                 (Events.joined_rows db e))).
Proof.
  pose proof (sql_avg_mean
    (List.map (fun row : Events.JoinedRow => option_map rating_value (snd row))
              (Events.joined_rows db e))) as H.
  assert (Hcol :
    omap id (List.map (fun row : Events.JoinedRow => option_map rating_value (snd row))
                      (Events.joined_rows db e))
    = flat_map (fun _ => ratings_of db e)
        (Events.left_join [tt]
           (List.filter (fun g => String.eqb (event_id e) (going_eventId g))
                        (eventGoing db)))).
  { unfold Events.joined_rows, ratings_of. rewrite List.map_map.
    rewrite <- rating_column_repeats. f_equal.
    apply List.map_ext. intros [[? ?] ?]. reflexivity. }
  rewrite Hcol in H. clear Hcol.
  pose proof (left_join_nonempty tt []
    (List.filter (fun g => String.eqb (event_id e) (going_eventId g)) (eventGoing db)))
    as Hne.
  destruct (Events.left_join [tt] _) as [|row rows]; [congruence|]. clear Hne.
  destruct (Events.sql_avg _) as [m|]; cbn [is_mean_of] in *.
  - destruct H as [Hnil H].
    assert (Hr : ratings_of db e <> []).
    { intros Hr. apply Hnil. rewrite Hr. clear.
      induction rows; cbn in *; auto. }
    split; [exact Hr|]. rewrite H. apply mean_repeats; [discriminate|exact Hr].
  - cbn [flat_map] in H. apply List.app_eq_nil in H. tauto.
Qed.

Section Backend.

Variable ilike : string -> string -> bool.
Variable parseFloat : string -> option Q.
Variable calculateDistance : Q -> Q -> Q -> Q -> Q.
Variable toDateString : Z -> string.

Lemma enrich_avgRating db now userLat userLng e :
  is_mean_of (ratings_of db e)
    (Events.fe_avgRating
       (Events.enrich calculateDistance toDateString db now userLat userLng e)).
Proof. exact (joined_rows_avg db e). Qed.

(** C6: for every event the feed returns, the average rating is null
    when the table holds no rating of the event, and the arithmetic mean
    of all its rating values otherwise; it is computed from the rating
    rows on each read (the tables hold no average), whatever the number
    of attendance rows the join pairs the ratings with. *)
Theorem average_rating_is_mean_at_read_time (db : DB) (now : Z) (q : Events.FeedQuery) :
  match Events.getEvents ilike parseFloat calculateDistance toDateString db now q with
  | Ok l =>
      Forall (fun fe => is_mean_of (ratings_of db (Events.fe_event fe))
                                   (Events.fe_avgRating fe)) l
  | Status _ _ => True
  end
  /\ forall userLat userLng e,
       match Events.fe_avgRating
               (Events.enrich calculateDistance toDateString db now
                  userLat userLng e) with
       | None => ratings_of db e = []
       | Some m => ratings_of db e <> [] /\ (m == mean (ratings_of db e))%Q
       end.
Proof.
  split.
  - destruct (Events.getEvents _ _ _ _ _ _ _) as [|l] eqn:E; [exact I|].
    eapply List.Forall_impl;
      [|eapply FeedProperties.getEvents_elements; exact E].
    intros fe (_ & _ & userLat & userLng & Hfe).
    rewrite Hfe at 2. apply enrich_avgRating.
  - intros userLat userLng e. apply enrich_avgRating.
Qed.

End Backend.

(** The event of the scenario with two attendance rows and the ratings
    4.0 and 4.5: the average read is 4.25; without ratings it is null. *)
Definition two_ratings : DB :=
  {| profiles := profiles Scenario.db; events := events Scenario.db;
     eventGoing := [ {| going_id := "g1"; going_eventId := "e1"; going_userId := "u1" |};
                     {| going_id := "g2"; going_eventId := "e1"; going_userId := "u2" |} ];
     eventComments := []; eventImages := [];
     eventRatings :=
       [ {| rating_id := "r1"; rating_eventId := "e1"; rating_userId := "u1";
            rating_value := 4; rating_createdAt := 0 |};
         {| rating_id := "r2"; rating_eventId := "e1"; rating_userId := "u2";
            rating_value := 45 # 10; rating_createdAt := 0 |};
         {| rating_id := "r3"; rating_eventId := "other"; rating_userId := "u2";
            rating_value := 1; rating_createdAt := 0 |} ] |}.

Example average_of_two_ratings :
  option_map Qred
    (Events.fe_avgRating
       (Events.enrich (fun _ _ _ _ => 0%Q) (fun _ => "") two_ratings 0 0 0 Scenario.party))
  = Some (17 # 4)%Q
  /\ Events.fe_avgRating
       (Events.enrich (fun _ _ _ _ => 0%Q) (fun _ => "") Scenario.db 0 0 0 Scenario.party)
     = None.
Proof. vm_compute. auto. Qed.

End AverageProperties.

(** ** Ranking by distance *)

Module RankingProperties.

Import Home.














Section Screen.

Variable parseFloat : string -> number.
Variable calculateDistance : Q -> Q -> Q -> Q -> Q.







End Screen.

(** The scenario: a viewer in Ljubljana; events with coordinates, an event
    placed by the city table, and two events whose coordinate cannot be
    determined.  The stand-in for the distance is the squared coordinate
    difference. *)
Definition viewer : LatLng := {| lat := 460569 # 10000; lng := 145058 # 10000 |}.

Definition event_at (name : string) (c : option string) (la ln : value) : Event :=
  {| id := name; title := name; description := ""; poster_url := None;
     region := ""; city := c; address := ""; ev_lat := la; ev_lng := ln;
     starts_at := 0; ends_at := 0; genre := "other"; status := "published";
     organizer_id := "org"; distance := None |}.

Definition squared_difference (lat1 lng1 lat2 lng2 : Q) : Q :=
  ((lat2 - lat1) * (lat2 - lat1) + (lng2 - lng1) * (lng2 - lng1))%Q.

Example ranked_scenario :
  List.map id
    (rankEvents (fun _ => NaN) squared_difference viewer
       [ event_at "atlantis" (Some "Atlantis") VOther VOther;
         event_at "far" None (VNumber (Num (465 # 10))) (VNumber (Num (150 # 10)));
         event_at "nowhere" None (VNumber NaN) (VString "x");
         event_at "kranj" (Some "  KRANJ ") VOther (VNumber (Num 14));
         event_at "near" None (VNumber (Num (4606 # 100))) (VNumber (Num (1451 # 100))) ])
  = ["near"; "kranj"; "far"; "atlantis"; "nowhere"].
Proof. vm_compute. reflexivity. Qed.

End RankingProperties.

(** ** Resolution of the viewer location *)

Module LocationProperties.

Import Home.

Definition maribor : LatLng := {| lat := 465547 # 10000; lng := 156459 # 10000 |}.



Section WithJSON.

Variable JSON_stringify : LatLng -> string.
Variable JSON_parse : string -> Outcome LatLng.









Lemma loadLocation_again (dev : Device) (s : State) :
  locationLoadedRef s = true ->
  loadLocation JSON_stringify JSON_parse dev s = (Returns tt, s).
Proof.
  intros H. unfold loadLocation, Eff.bind, Eff.get. now rewrite H.
Qed.

End WithJSON.


Definition maribor_selected : State :=
  {| locationLoadedRef := false;
     location := None;
     asyncStorage := {[ SELECTED_CITY_KEY := "  Maribor " ]} |}.

(** A device that refuses the permission. *)
Definition denied : Device :=
  {| getItem_rejects := false;
     setItem_rejects := false;
     requestForegroundPermissionsAsync := Returns "denied";
     getCurrentPositionAsync := Throws |}.

Example normalizeCityKey_example :
  normalizeCityKey (Some "  Novo   MESTO ") = "novo mesto"
  /\ normalizeCityKey None = "".
Proof. vm_compute. auto. Qed.

Example city_used_when_permission_denied :
  location (snd (loadLocation (fun _ => "{}") (fun _ => Throws) denied maribor_selected))
  = Some maribor.
Proof. vm_compute. reflexivity. Qed.




End LocationProperties.

(** ** The media URL resolver *)

Module StorageProperties.

Import Storage.

(** The URL a call yields, if it yields one: the signed URL of a response
    without error, the public URL. *)
Definition signed_url (result : Outcome SignedResponse) : option string :=
  match result with
  | Returns r =>
      if sr_error r then None
      else match sr_signedUrl r with
           | Some u => if truthy u then Some u else None
           | None => None
           end
  | Throws => None
  end.

Definition public_url (result : Outcome (option string)) : option string :=
  match result with
  | Returns (Some u) => if truthy u then Some u else None
  | Returns None => None
  | Throws => None
  end.

(** The reference is a signed URL of the bucket. *)
Definition is_signed_url (bucket v : string) : bool :=
  startsWith "http" v && includes ("/storage/v1/object/sign/" ++ bucket ++ "/") v.

Definition logged (s : State) (c : Call) : State :=
  {| storageUrlCache := storageUrlCache s; calls := calls s ++ [c] |}.

Definition cached (s : State) (key u : string) (expires : Z) : State :=
  {| storageUrlCache := <[key := {| url := u; expiresAtMs := expires |}]> (storageUrlCache s);
     calls := calls s |}.

Lemma try_signed_run sb later bucket path exp s :
  let result := createSignedUrl sb bucket path exp in
  let s1 := logged s (CallCreateSignedUrl bucket path exp result) in
  try_signed sb later bucket path exp s
  = match signed_url result with
    | Some u => (Returns (Some u),
                 cached s1 (cacheKey bucket path exp) u (later + exp * 1000))
    | None => (Returns None, s1)
    end.
Proof.
  cbv zeta. unfold try_signed, call_createSignedUrl, signed_url, cache_set.
  unfold Eff.try_catch, Eff.bind, Eff.modify, Eff.await, Eff.ret.
  destruct (createSignedUrl sb bucket path exp) as [[err [u|]]|]; try reflexivity.
  - cbn [sr_error sr_signedUrl]. destruct err; [reflexivity|].
    destruct (truthy u); reflexivity.
  - cbn [sr_error sr_signedUrl]. destruct err; reflexivity.
Qed.

Lemma try_public_run sb later bucket path exp s :
  let result := getPublicUrl sb bucket path in
  let s1 := logged s (CallGetPublicUrl bucket path result) in
  try_public sb later bucket path exp s
  = match public_url result with
    | Some u => (Returns (Some u),
                 cached s1 (cacheKey bucket path exp) u (later + exp * 1000))
    | None => (Returns None, s1)
    end.
Proof.
  cbv zeta. unfold try_public, call_getPublicUrl, public_url, cache_set.
  unfold Eff.try_catch, Eff.bind, Eff.modify, Eff.await, Eff.ret.
  destruct (getPublicUrl sb bucket path) as [[u|]|]; try reflexivity.
  destruct (truthy u); reflexivity.
Qed.

(** A resolution that starts with the cache [cache] and an empty log. *)
Definition start (cache : gmap string StorageUrlCacheEntry) : State :=
  {| storageUrlCache := cache; calls := [] |}.

(** The outcome of a resolution, by cases. *)
Inductive Resolution (sb : Supabase) (bucket : string) (value : option string)
    (expiresIn : option Z) (s : State) : Outcome (option string) * State -> Prop :=
| NoValue :
    truthy_opt value = false ->
    Resolution sb bucket value expiresIn s (Returns None, s)
| KeptSigned v :
    value = Some v -> is_signed_url bucket v = true ->
    Resolution sb bucket value expiresIn s (Returns (Some v), s)
| NoPath v :
    value = Some v ->
    Resolution sb bucket value expiresIn s (Returns (Some v), s)
| FromCache v u :
    value = Some v ->
    Resolution sb bucket value expiresIn s (Returns (Some u), s)
| Signed v path exp u s' :
    value = Some v ->
    signed_url (createSignedUrl sb bucket path exp) = Some u ->
    calls s' = (calls s ++ [CallCreateSignedUrl bucket path exp
                              (createSignedUrl sb bucket path exp)])%list ->
    Resolution sb bucket value expiresIn s (Returns (Some u), s')
| Public v path exp u s' :
    value = Some v ->
    public_url (getPublicUrl sb bucket path) = Some u ->
    calls s' = (calls s ++ [CallCreateSignedUrl bucket path exp
                              (createSignedUrl sb bucket path exp);
                            CallGetPublicUrl bucket path (getPublicUrl sb bucket path)])%list ->
    Resolution sb bucket value expiresIn s (Returns (Some u), s')
| Unresolved v path exp s' :
    value = Some v ->
    calls s' = (calls s ++ [CallCreateSignedUrl bucket path exp
                              (createSignedUrl sb bucket path exp);
                            CallGetPublicUrl bucket path (getPublicUrl sb bucket path)])%list ->
    storageUrlCache s' = storageUrlCache s ->
    Resolution sb bucket value expiresIn s (Returns (Some v), s').

Lemma resolveStorageUrl_cases sb now later bucket value expiresIn s :
  Resolution sb bucket value expiresIn s
    (resolveStorageUrl sb now later bucket value expiresIn s).
Proof.
  unfold resolveStorageUrl.
  destruct value as [v|]; [|now apply NoValue].
  destruct (truthy v) eqn:Hv; cbn [negb]; [|now apply NoValue].
  fold (is_signed_url bucket v).
  destruct (is_signed_url bucket v) eqn:Hs; [now eapply KeptSigned|].
  destruct (tryExtractBucketPath bucket v) as [path|]; [|now eapply NoPath].
  destruct (truthy path); cbn [negb]; [|now eapply NoPath].
  unfold Eff.bind at 1, lookup_cached. unfold Eff.bind at 1, Eff.get, Eff.ret at 1.
  destruct (match storageUrlCache s !! _ with Some _ => _ | None => _ end) as [u|];
    [now eapply FromCache|].
  unfold Eff.bind at 1. rewrite try_signed_run. cbv zeta.
  destruct (signed_url _) as [u|] eqn:Hsigned.
  { eapply Signed; eauto. }
  unfold Eff.bind at 1. rewrite try_public_run. cbv zeta.
  destruct (public_url _) as [u|] eqn:Hpublic.
  { eapply Public; eauto. cbn. now rewrite <- List.app_assoc. }
  eapply Unresolved; eauto. cbn. now rewrite <- List.app_assoc.
Qed.

(** C9: for every bucket and stored reference the resolver returns and
    never throws, whatever the storage client does; a reference that is
    already a signed URL of the bucket is returned unchanged, without a
    call and without touching the cache; and when the signed URL was
    requested and not obtained and the public URL was requested and not
    obtained, the original value is returned unchanged. *)
Theorem resolver_never_throws
    (sb : Supabase) (now later : Z) (bucket : string) (value : option string)
    (expiresIn : option Z) (cache : gmap string StorageUrlCacheEntry) :
  let result := resolveStorageUrl sb now later bucket value expiresIn (start cache) in
  (exists r, fst result = Returns r)
  /\ (forall v, value = Some v -> is_signed_url bucket v = true ->
                result = (Returns (Some v), start cache))
  /\ (forall v path exp signed public,
        value = Some v ->
        In (CallCreateSignedUrl bucket path exp signed) (calls (snd result)) ->
        signed_url signed = None ->
        In (CallGetPublicUrl bucket path public) (calls (snd result)) ->
        public_url public = None ->
        fst result = Returns (Some v)
        /\ storageUrlCache (snd result) = cache).
Proof.
  cbv zeta.
  pose proof (resolveStorageUrl_cases sb now later bucket value expiresIn (start cache))
    as H.
  split; [|split].
  - inversion H; cbn [fst]; eauto.
  - intros v -> Hs. unfold resolveStorageUrl.
    assert (Hv : truthy v = true).
    { destruct v; [discriminate|reflexivity]. }
    rewrite Hv. cbn [negb]. fold (is_signed_url bucket v). now rewrite Hs.
  - intros v path exp signed public -> Hin1 Hf1 Hin2 Hf2.
    destruct (resolveStorageUrl _ _ _ _ _ _ _) as [out s'].
    cbn [fst snd] in *.
    inversion H as [ |? ? ?|? ?|? ? ?|? ? ? ? ? ? Hu Hc|? ? ? ? ? ? Hu Hc|? ? ? ? ? Hc Hk];
      subst; cbn [calls start] in *;
      try (exfalso; apply list_elem_of_In in Hin1; inversion Hin1; fail);
      try contradiction.
    + rewrite Hc in Hin1. cbn in Hin1. destruct Hin1 as [[= <- <- <-]|[]].
      congruence.
    + rewrite Hc in Hin2. cbn in Hin2.
      destruct Hin2 as [|[[= <- <-]|[]]]; [discriminate|]. congruence.
    + split; [congruence|]. assumption.
Qed.

(** A client whose calls fail: signing throws, the public URL is empty. *)
Definition failing : Supabase :=
  {| createSignedUrl := fun _ _ _ => Throws;
     getPublicUrl := fun _ _ => Returns None |}.

Example unresolved_reference :
  resolveStorageUrl failing 0 0 "event-posters" (Some "/posters/a.jpg") None (start ∅)
  = (Returns (Some "/posters/a.jpg"),
     {| storageUrlCache := ∅;
        calls := [CallCreateSignedUrl "event-posters" "posters/a.jpg" 3600 Throws;
                  CallGetPublicUrl "event-posters" "posters/a.jpg" (Returns None)] |}).
Proof. vm_compute. reflexivity. Qed.

Example signed_reference_kept :
  let v := "https://x.supabase.co/storage/v1/object/sign/event-posters/a.jpg?token=t" in
  is_signed_url "event-posters" v = true
  /\ resolveStorageUrl failing 0 0 "event-posters" (Some v) None (start ∅)
     = (Returns (Some v), start ∅)
  /\ extractStoragePath "event-posters" (Some v) = Some "a.jpg".
Proof. vm_compute. auto. Qed.

End StorageProperties.

(** ** Deleting an ended event *)

Module DeleteProperties.

Import Events.

Definition caller_is_admin (db : DB) (session : option string) : bool :=
  match session with
  | Some uid => is_admin db uid
  | None => false
  end.

Lemma find_event_deleted (db : DB) (id : string) :
  find_event (delete_event db id) id = None.
Proof.
  unfold find_event, delete_event. cbn [events].
  apply (AttendanceProperties.find_filter_negb (fun e => String.eqb (event_id e) id)).
Qed.

(** C10: for every event whose end is in the past, a delete request of a
    caller who is not an admin (signed out, a stranger, or the organizer
    of the event) is refused with an error and leaves every table
    unchanged; the request of an admin deletes the event, so only an
    admin deletes an ended event. *)
Theorem ended_event_deleted_by_admin_only
    (db : DB) (now : Z) (session : option string) (id : string) (event : Event)
    (Hfound : find_event db id = Some event)
    (Hended : event_endsAt event < now) :
  (caller_is_admin db session = false ->
   exists code msg, deleteEvent db now session id = (Status code msg, db))
  /\ (caller_is_admin db session = true ->
      deleteEvent db now session id = (Ok tt, delete_event db id)
      /\ find_event (delete_event db id) id = None)
  /\ (is_ok (fst (deleteEvent db now session id)) = true ->
      caller_is_admin db session = true).
Proof.
  unfold deleteEvent, caller_is_admin.
  destruct session as [uid|].
  - rewrite Hfound. apply Z.ltb_lt in Hended. rewrite Hended.
    destruct (is_admin db uid); cbn [negb andb].
    + repeat split; try discriminate; auto using find_event_deleted.
    + destruct (negb (String.eqb (event_organizerId event) uid));
        repeat split; try discriminate; eauto.
  - repeat split; try discriminate; eauto.
Qed.

Example organizer_refused_admin_accepted :
  deleteEvent Scenario.db Scenario.six_hours_after (Some "org") "e1"
  = (Status 403 "Cannot delete ended events", Scenario.db)
  /\ deleteEvent Scenario.db Scenario.six_hours_after (Some "u1") "e1"
     = (Status 403 "Unauthorized", Scenario.db)
  /\ events (snd (deleteEvent Scenario.db Scenario.six_hours_after (Some "root") "e1"))
     = []
  /\ eventGoing (snd (deleteEvent Scenario.db Scenario.six_hours_after
                        (Some "root") "e1")) = [].
Proof. vm_compute. auto. Qed.

Lemma ended_event_deleted_by_admin_only_witness :
  find_event Scenario.db "e1" = Some Scenario.party
  /\ event_endsAt Scenario.party < Scenario.six_hours_after
  /\ caller_is_admin Scenario.db (Some "org") = false
  /\ exists code msg,
       deleteEvent Scenario.db Scenario.six_hours_after (Some "org") "e1"
       = (Status code msg, Scenario.db).
Proof.
  split; [reflexivity|]. split; [reflexivity|]. split; [reflexivity|].
  apply (ended_event_deleted_by_admin_only Scenario.db Scenario.six_hours_after
           (Some "org") "e1" Scenario.party eq_refl eq_refl).
  reflexivity.
Defined.

End DeleteProperties.

(** * Further properties of the modelled code *)

(** ** Strings *)

Module StringFacts.

Lemma append_cons (c : ascii) (s t : string) : String c s ++ t = String c (s ++ t).
Proof. reflexivity. Qed.

Lemma append_nil_l (s : string) : "" ++ s = s.
Proof. reflexivity. Qed.

Lemma append_nil_r (s : string) : s ++ "" = s.
Proof.
  induction s as [|c s IH]; [reflexivity|]. now rewrite append_cons, IH.
Qed.

Lemma append_assoc (a b c : string) : (a ++ b) ++ c = a ++ (b ++ c).
Proof.
  induction a as [|x a IH]; [reflexivity|]. now rewrite !append_cons, IH.
Qed.

Lemma rev_onto_append (s acc : string) : rev_onto s acc = reverse s ++ acc.
Proof.
  unfold reverse. revert acc. induction s as [|c s IH]; intros acc; [reflexivity|].
  cbn [rev_onto]. rewrite IH, (IH (String c "")), append_assoc. reflexivity.
Qed.

Lemma reverse_cons (c : ascii) (s : string) :
  reverse (String c s) = reverse s ++ String c "".
Proof. unfold reverse at 1. cbn [rev_onto]. apply rev_onto_append. Qed.

Lemma reverse_append (a b : string) : reverse (a ++ b) = reverse b ++ reverse a.
Proof.
  induction a as [|c a IH].
  - now rewrite append_nil_l, append_nil_r.
  - now rewrite append_cons, !reverse_cons, IH, append_assoc.
Qed.

Lemma reverse_involutive (s : string) : reverse (reverse s) = s.
Proof.
  induction s as [|c s IH]; [reflexivity|].
  now rewrite reverse_cons, reverse_append, IH.
Qed.

(** The string is empty or begins with a character that is not
    whitespace. *)
Definition clean_start (s : string) : Prop :=
  match s with
  | EmptyString => True
  | String c _ => is_whitespace c = false
  end.

Fixpoint all_whitespace (s : string) : bool :=
  match s with
  | EmptyString => true
  | String c r => is_whitespace c && all_whitespace r
  end.

Lemma trimStart_clean (s : string) : clean_start (trimStart s).
Proof.
  induction s as [|c s IH]; cbn [trimStart]; [exact I|].
  destruct (is_whitespace c) eqn:E; [exact IH|exact E].
Qed.

Lemma trimStart_fixed (s : string) : clean_start s -> trimStart s = s.
Proof. destruct s as [|c s]; cbn [trimStart clean_start]; [reflexivity|]. now intros ->. Qed.

Lemma trimStart_split (s : string) :
  exists w, s = w ++ trimStart s /\ all_whitespace w = true.
Proof.
  induction s as [|c s (w & Hs & Hw)]; [now exists ""|]. cbn [trimStart].
  destruct (is_whitespace c) eqn:E.
  - exists (String c w). rewrite append_cons. cbn [all_whitespace].
    now rewrite E, Hw, <- Hs.
  - now exists "".
Qed.

Lemma clean_start_prefix (a b : string) :
  clean_start (a ++ b) -> clean_start a.
Proof. destruct a; [intros _; exact I|]. rewrite append_cons. auto. Qed.

(** [trim s] with the whitespace around it. *)
Lemma trim_split (s : string) :
  exists before after,
    s = before ++ trim s ++ after
    /\ all_whitespace before = true /\ all_whitespace (reverse after) = true.
Proof.
  destruct (trimStart_split s) as (w & Hs & Hw).
  destruct (trimStart_split (reverse (trimStart s))) as (w' & Hr & Hw').
  exists w, (reverse w'). unfold trim. split; [|now rewrite reverse_involutive].
  rewrite <- reverse_append, <- Hr, reverse_involutive. exact Hs.
Qed.

Lemma trim_clean_start (s : string) : clean_start (trim s).
Proof.
  destruct (trimStart_split (reverse (trimStart s))) as (w' & Hr & _).
  apply (f_equal reverse) in Hr. rewrite reverse_involutive, reverse_append in Hr.
  unfold trim. eapply clean_start_prefix. rewrite <- Hr. apply trimStart_clean.
Qed.

Lemma trim_clean_end (s : string) : clean_start (reverse (trim s)).
Proof. unfold trim. rewrite reverse_involutive. apply trimStart_clean. Qed.

Lemma trim_fixed (s : string) :
  clean_start s -> clean_start (reverse s) -> trim s = s.
Proof.
  intros H1 H2. unfold trim.
  now rewrite (trimStart_fixed s H1), (trimStart_fixed _ H2), reverse_involutive.
Qed.

Lemma trim_idempotent (s : string) : trim (trim s) = trim s.
Proof. apply trim_fixed; [apply trim_clean_start|apply trim_clean_end]. Qed.

Lemma startsWith_split (p s : string) :
  startsWith p s = true -> s = p ++ slice_from (String.length p) s.
Proof.
  revert s. induction p as [|a p IH]; intros [|b s]; cbn [startsWith slice_from String.length];
    try discriminate; auto.
  rewrite andb_true_iff, Ascii.eqb_eq. intros [-> H].
  now rewrite append_cons, <- IH.
Qed.

Lemma startsWith_append (p rest : string) : startsWith p (p ++ rest) = true.
Proof.
  induction p as [|a p IH]; [reflexivity|]. rewrite append_cons. cbn [startsWith].
  now rewrite Ascii.eqb_refl, IH.
Qed.

Lemma startsWith_longer (p s t : string) :
  startsWith p s = true -> startsWith p (s ++ t) = true.
Proof.
  intros H. rewrite (startsWith_split p s H), append_assoc. apply startsWith_append.
Qed.

Lemma slice_from_append (p rest : string) :
  slice_from (String.length p) (p ++ rest) = rest.
Proof.
  induction p as [|a p IH]; [now destruct rest|]. rewrite append_cons. exact IH.
Qed.

End StringFacts.

(** ** Sanitized comments *)

Module CommentProperties.

Import Interactions StringFacts.

(** The regular expression of [sanitizeComment] matches at the head of
    [s], and somewhere in [s]. *)
Definition url_at (s : string) : bool :=
  match url_match_length s with Some _ => true | None => false end.

Fixpoint has_url (s : string) : bool :=
  match s with
  | EmptyString => false
  | String _ r => url_at s || has_url r
  end.

Fixpoint no_whitespace (s : string) : bool :=
  match s with
  | EmptyString => true
  | String c r => negb (is_whitespace c) && no_whitespace r
  end.

Lemma nonws_run_append (p r : string) :
  no_whitespace p = true ->
  nonws_run (p ++ r) = (String.length p + nonws_run r)%nat.
Proof.
  induction p as [|c p IH]; [reflexivity|]. cbn [no_whitespace].
  rewrite andb_true_iff, negb_true_iff. intros [Hc Hp].
  rewrite append_cons. cbn [nonws_run String.length]. now rewrite Hc, IH.
Qed.

(** A match runs from its first character to the next whitespace. *)
Lemma url_match_length_run (s : string) (n : nat) :
  url_match_length s = Some n -> n = nonws_run s /\ (0 < n)%nat.
Proof.
  unfold url_match_length.
  assert (Hscheme : forall scheme,
             no_whitespace scheme = true ->
             (if startsWith scheme s
              then match nonws_run (slice_from (String.length scheme) s) with
                   | O => None
                   | S m => Some (String.length scheme + S m)%nat
                   end
              else None) = Some n ->
             n = nonws_run s /\ (0 < n)%nat).
  { intros scheme Hw. destruct (startsWith scheme s) eqn:Hp; [|discriminate].
    destruct (nonws_run _) as [|m] eqn:Hr; [discriminate|]. intros [= <-].
    rewrite (startsWith_split scheme s Hp) at 1.
    rewrite nonws_run_append, Hr by exact Hw. lia. }
  destruct (if startsWith "https://" s then _ else _) as [k|] eqn:E.
  - intros [= <-]. apply (Hscheme "https://"); [reflexivity|exact E].
  - apply (Hscheme "http://"). reflexivity.
Qed.

(** The regular expression matches at the head exactly when the string
    begins with a scheme and one more character that is not whitespace. *)
Lemma url_at_iff (s : string) :
  url_at s = true
  <-> exists d, is_whitespace d = false
                /\ (startsWith ("https://" ++ String d "") s = true
                    \/ startsWith ("http://" ++ String d "") s = true).
Proof.
  unfold url_at, url_match_length. split.
  - assert (Hscheme : forall scheme,
               (if startsWith scheme s
                then match nonws_run (slice_from (String.length scheme) s) with
                     | O => None
                     | S m => Some (String.length scheme + S m)%nat
                     end
                else None) <> None ->
               exists d, is_whitespace d = false
                         /\ startsWith (scheme ++ String d "") s = true).
    { intros scheme. destruct (startsWith scheme s) eqn:Hp; [|congruence].
      destruct (slice_from (String.length scheme) s) as [|d rest] eqn:Hs;
        [cbn; congruence|].
      cbn [nonws_run]. destruct (is_whitespace d) eqn:Hd; [congruence|]. intros _.
      exists d. split; [exact Hd|].
      rewrite (startsWith_split scheme s Hp), Hs.
      change (String d rest) with (String d "" ++ rest).
      rewrite <- append_assoc. apply startsWith_append. }
    destruct (if startsWith "https://" s then _ else _) as [k|] eqn:E.
    + intros _. destruct (Hscheme "https://") as (d & Hd & H); [congruence|eauto].
    + destruct (if startsWith "http://" s then _ else _) as [k|] eqn:E'; [|discriminate].
      intros _. destruct (Hscheme "http://") as (d & Hd & H); [congruence|eauto].
  - assert (Hscheme : forall scheme d,
               is_whitespace d = false ->
               startsWith (scheme ++ String d "") s = true ->
               exists m,
                 (if startsWith scheme s
                  then match nonws_run (slice_from (String.length scheme) s) with
                       | O => None
                       | S m => Some (String.length scheme + S m)%nat
                       end
                  else None) = Some m).
    { intros scheme d Hd Hp. apply startsWith_split in Hp.
      rewrite append_assoc in Hp.
      set (rest := slice_from _ s) in Hp. clearbody rest. rewrite Hp.
      rewrite startsWith_append, slice_from_append, append_cons.
      cbn [nonws_run]. rewrite Hd. eauto. }
    intros (d & Hd & [H|H]).
    + destruct (Hscheme "https://" d Hd H) as (m & ->). reflexivity.
    + destruct (Hscheme "http://" d Hd H) as (m & ->).
      now destruct (if startsWith "https://" s then _ else _).
Qed.

Lemma strip_urls_skip (k : nat) (s : string) :
  strip_urls k s = strip_urls 0 (slice_from k s).
Proof.
  revert s. induction k as [|k IH]; intros s; [now destruct s|].
  destruct s as [|c s]; [reflexivity|]. cbn [strip_urls slice_from]. apply IH.
Qed.

Lemma nonws_run_slice (s : string) : nonws_run (slice_from (nonws_run s) s) = 0%nat.
Proof.
  induction s as [|c s IH]; [reflexivity|]. cbn [nonws_run].
  destruct (is_whitespace c) eqn:E; cbn [slice_from nonws_run]; [now rewrite E|exact IH].
Qed.

Lemma strip_urls_whitespace_first (s : string) :
  nonws_run s = 0%nat -> nonws_run (strip_urls 0 s) = 0%nat.
Proof.
  destruct s as [|c s]; [reflexivity|]. intros H. cbn [strip_urls].
  destruct (url_match_length (String c s)) as [n|] eqn:E.
  - apply url_match_length_run in E. lia.
  - cbn [nonws_run] in *. now destruct (is_whitespace c).
Qed.

(** What [strip_urls] leaves where a match began: nothing, or whitespace. *)
Lemma strip_urls_match (c : ascii) (s : string) (n : nat) :
  url_match_length (String c s) = Some n ->
  nonws_run (strip_urls 0 (String c s)) = 0%nat.
Proof.
  intros E. cbn [strip_urls]. rewrite E.
  apply url_match_length_run in E as [E Hn]. cbn [nonws_run] in E.
  destruct (is_whitespace c); [lia|]. subst n. cbn [Nat.pred].
  rewrite strip_urls_skip. apply strip_urls_whitespace_first, nonws_run_slice.
Qed.

(** A run without whitespace at the head of the result stood at the head of
    the input. *)
Lemma strip_urls_prefix (q s : string) :
  no_whitespace q = true ->
  startsWith q (strip_urls 0 s) = true -> startsWith q s = true.
Proof.
  revert q. induction s as [|c s IH]; intros q Hq; [auto|].
  destruct q as [|a q]; [reflexivity|].
  cbn [no_whitespace] in Hq. apply andb_true_iff in Hq as [Ha Hq].
  apply negb_true_iff in Ha.
  destruct (url_match_length (String c s)) as [n|] eqn:E.
  - pose proof (strip_urls_match c s n E) as Hrun.
    destruct (strip_urls 0 (String c s)) as [|b t]; [discriminate|].
    cbn [startsWith nonws_run] in *.
    rewrite andb_true_iff, Ascii.eqb_eq. intros [<- _].
    rewrite Ha in Hrun. discriminate.
  - cbn [strip_urls]. rewrite E. cbn [startsWith].
    rewrite !andb_true_iff. intros [-> H]. split; [reflexivity|]. now apply IH.
Qed.

Lemma url_at_kept (c : ascii) (s : string) :
  url_at (String c (strip_urls 0 s)) = true -> url_at (String c s) = true.
Proof.
  rewrite !url_at_iff. intros (d & Hd & H). exists d. split; [exact Hd|].
  assert (Hq : forall q, no_whitespace q = true ->
                 startsWith (String "h" q) (String c (strip_urls 0 s)) = true ->
                 startsWith (String "h" q) (String c s) = true).
  { intros q Hq. cbn [startsWith]. rewrite !andb_true_iff. intros [-> Hp].
    split; [reflexivity|]. now apply strip_urls_prefix. }
  destruct H as [H|H]; [left|right]; apply Hq; try exact H;
    cbn; now rewrite Hd.
Qed.

Lemma strip_urls_no_url (s : string) (skip : nat) : has_url (strip_urls skip s) = false.
Proof.
  revert skip. induction s as [|c s IH]; intros skip; [reflexivity|].
  cbn [strip_urls]. destruct skip as [|k]; [|apply IH].
  destruct (url_match_length (String c s)) as [n|] eqn:E; [apply IH|].
  cbn [has_url]. rewrite IH, orb_false_r.
  apply not_true_iff_false. intros H. apply url_at_kept in H.
  unfold url_at in H. now rewrite E in H.
Qed.

Lemma has_url_suffix (a b : string) : has_url (a ++ b) = false -> has_url b = false.
Proof.
  induction a as [|c a IH]; [auto|]. rewrite append_cons. cbn [has_url].
  rewrite orb_false_iff. intros [_ H]. auto.
Qed.

Lemma url_at_longer (a b : string) : url_at a = true -> url_at (a ++ b) = true.
Proof.
  rewrite !url_at_iff. intros (d & Hd & H). exists d. split; [exact Hd|].
  destruct H; [left|right]; now apply startsWith_longer.
Qed.

Lemma has_url_prefix (a b : string) : has_url (a ++ b) = false -> has_url a = false.
Proof.
  induction a as [|c a IH]; [reflexivity|]. rewrite append_cons. cbn [has_url].
  rewrite !orb_false_iff. intros [H1 H2]. split; [|auto].
  apply not_true_iff_false. intros H. apply (url_at_longer _ b) in H.
  rewrite append_cons in H. congruence.
Qed.

Lemma strip_urls_clean (s : string) : has_url s = false -> strip_urls 0 s = s.
Proof.
  induction s as [|c s IH]; [reflexivity|]. cbn [has_url strip_urls].
  rewrite orb_false_iff. unfold url_at. intros [H1 H2].
  destruct (url_match_length (String c s)); [discriminate|]. now rewrite IH.
Qed.

End CommentProperties.
